(** * Set algebra simulator: [DataSet<T>] and [DataSetCollection<T>]

    A shallow embedding of [DataSet.hxx] and [DataSetCollection.hxx], and of
    [trim] and the body of the query loop of [main.cxx].

    - [std::vector<T>] and [std::deque<DataSet<T>>] are lists, in storage
      order; [push_back] appends at the end.
    - [std::string] is [string]; the non-ASCII operator symbols of the
      derived names are their UTF-8 bytes.
    - The template parameter [T] with its [operator==] is a type with an
      instance of the class [EqOp]; [int] is [Z].
    - [size_t] results are [N]; the [int] returned by [findIndexByName] is a
      [Z], with the narrowing [static_cast<int>] written out.
    - [const] member functions of [DataSet] are functions of the object; the
      only mutating ones, [insert] and [setName], return the updated object.
    - The member functions of the collection that throw, print or mutate run
      in a small monad over the deque and the two output streams. *)

From Stdlib Require Import List String Ascii ZArith NArith Bool Lia DecimalString.
From Stdlib Require Import Permutation.
Import ListNotations.

Local Open Scope string_scope.
Local Open Scope list_scope.

(** ** The element type's equality *)

(** [operator==] of the element type. *)
Class EqOp (T : Type) := eq_op : T -> T -> bool.

Infix "==" := eq_op (at level 69, no associativity).

(** The element type's [==] is an equality relation. *)
Class EqLaws (T : Type) `{EqOp T} : Prop := {
  eq_op_refl : forall x : T, x == x = true;
  eq_op_sym : forall x y : T, x == y = y == x;
  eq_op_trans : forall x y z : T, x == y = true -> y == z = true -> x == z = true
}.

(** [operator<<] of the element type, as the text it writes. *)
Class Streamable (T : Type) := show : T -> string.

(** [int] elements. *)
#[export] Instance int_EqOp : EqOp Z := Z.eqb.

#[export] Instance int_Streamable : Streamable Z :=
  fun z => NilZero.string_of_int (Z.to_int z).

(** [std::pair<T, T>]: [operator==] compares both components. *)
#[export] Instance pair_EqOp {T : Type} `{EqOp T} : EqOp (T * T) :=
  fun p q => (fst p == fst q) && (snd p == snd q).

(** ** DataSet<T> *)

Record DataSet (T : Type) : Type := mkDataSet {
  elements : list T;
  name : string
}.

Arguments mkDataSet {T} _ _.
Arguments elements {T} _.
Arguments name {T} _.

Section DataSetOps.

Context {T : Type} `{EqOp T}.

(** [DataSet(const std::string &setName)] *)
Definition DataSet_new (setName : string) : DataSet T :=
  {| name := setName; elements := [] |}.

Definition getName (this : DataSet T) : string := name this.

Definition setName (this : DataSet T) (newName : string) : DataSet T :=
  {| name := newName; elements := elements this |}.

Definition getElements (this : DataSet T) : list T := elements this.

(** The scan of [contains], from the iterator position [it] to the end. *)
Fixpoint contains_from (it : list T) (value : T) : bool :=
  match it with
  | [] => false
  | x :: it' => if x == value then true else contains_from it' value
  end.

Definition contains (this : DataSet T) (value : T) : bool :=
  contains_from (elements this) value.

Definition insert (this : DataSet T) (value : T) : DataSet T :=
  if negb (contains this value)
  then {| name := name this; elements := elements this ++ [value] |}
  else this.

(** A [while] loop that walks [it] and inserts into [result] the values
    that pass [guard]. *)
Fixpoint insert_loop (guard : T -> bool) (it : list T) (result : DataSet T)
  : DataSet T :=
  match it with
  | [] => result
  | val :: it' =>
      insert_loop guard it' (if guard val then insert result val else result)
  end.

Definition unionWith (this other : DataSet T) : DataSet T :=
  let result := DataSet_new (getName this ++ " ∪ " ++ getName other) in
  let result := insert_loop (fun _ => true) (elements this) result in
  let elemsB := getElements other in
  insert_loop (fun _ => true) elemsB result.

Definition intersectionWith (this other : DataSet T) : DataSet T :=
  let result := DataSet_new (getName this ++ " ∩ " ++ getName other) in
  insert_loop (fun val => contains other val) (elements this) result.

Definition differenceWith (this other : DataSet T) : DataSet T :=
  let result := DataSet_new (getName this ++ "-" ++ getName other) in
  insert_loop (fun val => negb (contains other val)) (elements this) result.

Definition symmetricDifferenceWith (this other : DataSet T) : DataSet T :=
  let result :=
    DataSet_new (getName this ++ " symmetric_difference " ++ getName other) in
  let result :=
    insert_loop (fun valA => negb (contains other valA)) (elements this) result in
  let elemsB := getElements other in
  insert_loop (fun valB => negb (contains this valB)) elemsB result.

(** The scan of [isSubsetOf], from the iterator position [it] to the end. *)
Fixpoint isSubsetOf_from (it : list T) (other : DataSet T) : bool :=
  match it with
  | [] => true
  | val :: it' =>
      if negb (contains other val) then false else isSubsetOf_from it' other
  end.

Definition isSubsetOf (this other : DataSet T) : bool :=
  let elems := getElements this in
  isSubsetOf_from elems other.

Definition isEqualTo (this other : DataSet T) : bool :=
  isSubsetOf this other && isSubsetOf other this.

(** [size()] as the source has it: the body is [return 1;]. *)
Definition size (this : DataSet T) : N := 1%N.

End DataSetOps.

(** [operator==] on sets is [isEqualTo]. *)
#[export] Instance DataSet_EqOp {T : Type} `{EqOp T} : EqOp (DataSet T) :=
  fun a b => isEqualTo a b.

Section DataSetProducts.

Context {T : Type} `{EqOp T}.

(** [powerSet()] as the source has it: the named, empty result is returned. *)
Definition powerSet (this : DataSet T) : DataSet (DataSet T) :=
  let result := DataSet_new (getName this ++ " Power Set") in
  result.

(** [cartesianProductWith()] as the source has it: the named, empty result
    is returned. *)
Definition cartesianProductWith (this other : DataSet T) : DataSet (T * T) :=
  let result := DataSet_new (getName this ++ " × " ++ getName other) in
  result.

End DataSetProducts.

Section DataSetPrint.

Context {T : Type} `{Streamable T}.

(** The [for] loop of [print], from index [i], with [rest] the elements
    from [i] on: a separator follows every element but the last. *)
Fixpoint print_from (rest : list T) : string :=
  match rest with
  | [] => ""
  | x :: rest' =>
      show x ++ (match rest' with [] => "" | _ :: _ => ", " end) ++ print_from rest'
  end.

(** [print(os)], as the text appended to [os]. *)
Definition print (this : DataSet T) : string :=
  (if negb (String.eqb (name this) "") then name this ++ " = " else "")
  ++ "{" ++ print_from (elements this) ++ "}".

End DataSetPrint.

(** ** DataSetCollection<T> *)

(** [std::runtime_error], with the text [what()] returns. *)
Inductive exception : Type :=
| runtime_error (what : string).

(** How a call ends: it returns, it throws, or it has no defined behaviour
    (an index outside the deque). *)
Inductive outcome (A : Type) : Type :=
| Return (a : A)
| Throw (e : exception)
| Undefined.

Arguments Return {A} a.
Arguments Throw {A} e.
Arguments Undefined {A}.

(** The collection object together with [std::cout] and [std::cerr], each
    stream as the text written to it so far. *)
Record World (T : Type) : Type := mkWorld {
  sets : list (DataSet T);
  cout : string;
  cerr : string
}.

Arguments mkWorld {T} _ _ _.
Arguments sets {T} _.
Arguments cout {T} _.
Arguments cerr {T} _.

(** [std::endl], as the character it writes. *)
Definition endl : string := String (ascii_of_nat 10) "".

(** [static_cast<int>] of a [size_t]: reduction to 32 bits, two's complement. *)
Definition static_cast_int (i : Z) : Z :=
  ((i + 2 ^ 31) mod 2 ^ 32 - 2 ^ 31)%Z.

(** Computations over the collection: state passing with an outcome. A throw
    keeps the state reached so far. *)
Definition M (T A : Type) : Type := World T -> outcome A * World T.

Definition ret {T A : Type} (a : A) : M T A := fun w => (Return a, w).

Definition bind {T A B : Type} (m : M T A) (k : A -> M T B) : M T B :=
  fun w =>
    match m w with
    | (Return a, w') => k a w'
    | (Throw e, w') => (Throw e, w')
    | (Undefined, w') => (Undefined, w')
    end.

Definition throw {T A : Type} (e : exception) : M T A := fun w => (Throw e, w).

Definition undefined {T A : Type} : M T A := fun w => (Undefined, w).

Definition get_sets {T : Type} : M T (list (DataSet T)) :=
  fun w => (Return (sets w), w).

Definition put_sets {T : Type} (l : list (DataSet T)) : M T unit :=
  fun w => (Return tt, {| sets := l; cout := cout w; cerr := cerr w |}).

Definition write_cout {T : Type} (text : string) : M T unit :=
  fun w => (Return tt, {| sets := sets w; cout := cout w ++ text; cerr := cerr w |}).

Definition write_cerr {T : Type} (text : string) : M T unit :=
  fun w => (Return tt, {| sets := sets w; cout := cout w; cerr := cerr w ++ text |}).

Declare Scope coll_scope.
Delimit Scope coll_scope with coll.

Notation "x <- m ;; k" := (bind m (fun x => k))
  (at level 100, m at next level, right associativity) : coll_scope.
Notation "m ;;; k" := (bind m (fun _ => k))
  (at level 100, right associativity) : coll_scope.

Section Collection.

Context {T : Type} `{EqOp T} `{Streamable T}.

(** [DataSetCollection()] with untouched streams. *)
Definition DataSetCollection_new : World T :=
  {| sets := []; cout := ""; cerr := "" |}.

(** The [for] loop of [findIndexByName], at index [i], with [rest] the
    deque from [i] on. *)
Fixpoint findIndex_from (i : nat) (rest : list (DataSet T)) (name : string) : Z :=
  match rest with
  | [] => (-1)%Z
  | s :: rest' =>
      if String.eqb (getName s) name
      then static_cast_int (Z.of_nat i)
      else findIndex_from (S i) rest' name
  end.

Definition findIndexByName (w : World T) (name : string) : Z :=
  findIndex_from 0 (sets w) name.

(** [sets[index]] read: the [int] index is converted to the unsigned
    [size_type], so a negative one lies outside the deque as well. *)
Definition deque_at (l : list (DataSet T)) (index : Z) : option (DataSet T) :=
  if (index <? 0)%Z then None else nth_error l (Z.to_nat index).

(** Position [n] of [l] replaced by [s]. *)
Fixpoint replace_nth (l : list (DataSet T)) (n : nat) (s : DataSet T)
  : list (DataSet T) :=
  match l, n with
  | [], _ => []
  | _ :: l', O => s :: l'
  | x :: l', S n' => x :: replace_nth l' n' s
  end.

(** [sets[index]] as an object in the deque, read and written back by [f]. *)
Definition deque_update (index : Z) (f : DataSet T -> DataSet T) : M T unit :=
  (l <- get_sets ;;
   match deque_at l index with
   | Some s => put_sets (replace_nth l (Z.to_nat index) (f s))
   | None => undefined
   end)%coll.

Definition addSet (set : DataSet T) : M T unit :=
  fun w =>
    let index := findIndexByName w (getName set) in
    if negb (index =? -1)%Z
    then deque_update index (fun _ => set) w
    else put_sets (sets w ++ [set]) w.

Definition hasSet (w : World T) (name : string) : bool :=
  negb (findIndexByName w name =? -1)%Z.

Definition insertInto (name : string) (value : T) : M T unit :=
  fun w =>
    let index := findIndexByName w name in
    if (index =? -1)%Z
    then throw (runtime_error ("Set '" ++ name ++ "' not found.")) w
    else deque_update index (fun s => insert s value) w.

Definition printSet (name : string) : M T unit :=
  fun w =>
    let index := findIndexByName w name in
    if (index =? -1)%Z
    then write_cerr ("Set '" ++ name ++ "' not found." ++ endl) w
    else
      match deque_at (sets w) index with
      | Some s => (write_cout (print s) ;;; write_cout endl)%coll w
      | None => undefined w
      end.

Definition getSet (name : string) : M T (DataSet T) :=
  fun w =>
    let index := findIndexByName w name in
    if (index =? -1)%Z
    then throw (runtime_error ("Set '" ++ name ++ "' not found.")) w
    else
      match deque_at (sets w) index with
      | Some s => ret s w
      | None => undefined w
      end.

Definition getSetNames (w : World T) : list string :=
  map getName (sets w).

Definition operate (nameA op nameB : string) : M T (DataSet T) :=
  (A <- getSet nameA ;;
   B <- getSet nameB ;;
   let result : DataSet T :=
     DataSet_new (getName A ++ " " ++ op ++ " " ++ getName B) in
   result <-
     (if String.eqb op "union" then ret (unionWith A B)
      else if String.eqb op "intersection" then ret (intersectionWith A B)
      else if String.eqb op "difference" then ret (differenceWith A B)
      else if String.eqb op "symmetric_difference"
           then ret (symmetricDifferenceWith A B)
      else throw (runtime_error ("Invalid operation: '" ++ op ++ "'"))) ;;
   let result := setName result ("(" ++ nameA ++ " " ++ op ++ " " ++ nameB ++ ")") in
   ret result)%coll.

Definition operateUnarySet (name op : string) : M T (DataSet (DataSet T)) :=
  (A <- getSet name ;;
   if String.eqb op "powerset"
   then ret (powerSet A)
   else throw (runtime_error ("Unsupported unary operation: '" ++ op ++ "'")))%coll.

Definition cartesianProduct (nameA nameB : string) : M T (DataSet (T * T)) :=
  (A <- getSet nameA ;;
   B <- getSet nameB ;;
   ret (cartesianProductWith A B))%coll.

End Collection.

(** ** The vocabulary of the specification *)

(** The two error kinds, by the exception the code throws for each. *)
Definition NotFound (name : string) : exception :=
  runtime_error ("Set '" ++ name ++ "' not found.").

Definition UnsupportedBinary (op : string) : exception :=
  runtime_error ("Invalid operation: '" ++ op ++ "'").

Definition UnsupportedUnary (op : string) : exception :=
  runtime_error ("Unsupported unary operation: '" ++ op ++ "'").

Definition raises_NotFound {A : Type} (o : outcome A) : Prop :=
  exists name, o = Throw (NotFound name).

Definition raises_Unsupported {A : Type} (o : outcome A) : Prop :=
  exists op, o = Throw (UnsupportedBinary op) \/ o = Throw (UnsupportedUnary op).

Definition returns {A : Type} (o : outcome A) : Prop :=
  exists a, o = Return a.

(** The keywords [operate] and [operateUnarySet] recognize. *)
Definition binary_keyword (op : string) : bool :=
  String.eqb op "union" || String.eqb op "intersection"
  || String.eqb op "difference" || String.eqb op "symmetric_difference".

Definition unary_keyword (op : string) : bool := String.eqb op "powerset".

(** A name is registered when some set of the deque carries it. *)
Definition registered {T : Type} (w : World T) (n : string) : Prop :=
  In n (getSetNames w).

(** Every index of the deque is an [int]. *)
Definition indices_fit_int {T : Type} (w : World T) : Prop :=
  (Z.of_nat (List.length (sets w)) <= 2 ^ 31)%Z.

Section Vocabulary.

Context {T : Type} `{EqOp T}.

(** No two stored elements compare equal. *)
Definition no_two_equal (l : list T) : Prop :=
  forall i j x y,
    i <> j -> nth_error l i = Some x -> nth_error l j = Some y ->
    x == y = false.

(** The same, as a check. *)
Fixpoint no_two_equalb (l : list T) : bool :=
  match l with
  | [] => true
  | x :: l' =>
      forallb (fun y => negb (x == y) && negb (y == x)) l' && no_two_equalb l'
  end.

(** How many stored elements compare equal to [x]. *)
Definition occurrences (x : T) (l : list T) : nat :=
  List.length (filter (fun y => y == x) l).

(** The sets a client can obtain from the public interface of [DataSet<T>]. *)
Inductive reachable : DataSet T -> Prop :=
| reach_new (setName : string) : reachable (DataSet_new setName)
| reach_insert (s : DataSet T) (v : T) :
    reachable s -> reachable (insert s v)
| reach_setName (s : DataSet T) (newName : string) :
    reachable s -> reachable (setName s newName)
| reach_union (a b : DataSet T) :
    reachable a -> reachable b -> reachable (unionWith a b)
| reach_intersection (a b : DataSet T) :
    reachable a -> reachable b -> reachable (intersectionWith a b)
| reach_difference (a b : DataSet T) :
    reachable a -> reachable b -> reachable (differenceWith a b)
| reach_symmetric_difference (a b : DataSet T) :
    reachable a -> reachable b -> reachable (symmetricDifferenceWith a b).

End Vocabulary.

(** ** The sets of the specification's scenario *)

(** A = {1, 2, 3} and B = {2, 3, 4}, built as the driver builds them, and the
    collection that registers both. *)
Definition example_A : DataSet Z :=
  insert (insert (insert (DataSet_new "A") 1%Z) 2%Z) 3%Z.

Definition example_B : DataSet Z :=
  insert (insert (insert (DataSet_new "B") 2%Z) 3%Z) 4%Z.

Definition example_collection : World Z :=
  snd (addSet example_B (snd (addSet example_A DataSetCollection_new))).

(** ** The driver, main.cxx *)

(** [std::string::npos], the largest [size_t]. *)
Definition npos : Z := (2 ^ 64 - 1)%Z.

(** Whether [c] is one of the characters of [chars]. *)
Fixpoint char_in (c : ascii) (chars : string) : bool :=
  match chars with
  | EmptyString => false
  | String d chars' => Ascii.eqb c d || char_in c chars'
  end.

(** [str.find_first_not_of(chars)], at position [pos], with [rest] the
    string from [pos] on: the first position that holds a character outside
    [chars], or [npos]. *)
Fixpoint find_first_not_of_from (pos : nat) (rest chars : string) : Z :=
  match rest with
  | EmptyString => npos
  | String c rest' =>
      if char_in c chars
      then find_first_not_of_from (S pos) rest' chars
      else Z.of_nat pos
  end.

Definition find_first_not_of (str chars : string) : Z :=
  find_first_not_of_from 0 str chars.

(** [str.find_last_not_of(chars)]: the last position that holds a character
    outside [chars], or [npos]; [found] is the answer for the part of the
    string before [pos]. *)
Fixpoint find_last_not_of_from (pos : nat) (rest chars : string) (found : Z) : Z :=
  match rest with
  | EmptyString => found
  | String c rest' =>
      find_last_not_of_from (S pos) rest' chars
        (if char_in c chars then found else Z.of_nat pos)
  end.

Definition find_last_not_of (str chars : string) : Z :=
  find_last_not_of_from 0 str chars npos.

(** [str.substr(pos, count)]: [None] stands for the [std::out_of_range] it
    throws when [pos] is beyond the size; otherwise the [count] characters
    from [pos], or those up to the end when there are fewer. *)
Definition substr (str : string) (pos count : Z) : option string :=
  if (Z.of_nat (String.length str) <? pos)%Z then None
  else Some (String.substring (Z.to_nat pos) (Z.to_nat count) str).

(** The characters [trim] removes: space, tab, carriage return, line feed. *)
Definition blanks : string :=
  String " " (String (ascii_of_nat 9) (String (ascii_of_nat 13)
    (String (ascii_of_nat 10) EmptyString))).

(** [trim(str)]; [last - first + 1] is computed in [size_t]. *)
Definition trim (str : string) : option string :=
  let first := find_first_not_of str blanks in
  if (first =? npos)%Z then Some ""
  else
    let last := find_last_not_of str blanks in
    substr str first ((last - first + 1) mod 2 ^ 64)%Z.

(** Every character of [s] is one of [chars]. *)
Fixpoint all_in (s chars : string) : bool :=
  match s with
  | EmptyString => true
  | String c s' => char_in c chars && all_in s' chars
  end.

(** [ex.what()]. *)
Definition what (e : exception) : string :=
  match e with runtime_error text => text end.

(** [try { body } catch (const std::exception &ex) { handler }]: what the
    body has done before it throws stays done. *)
Definition try_catch {T A : Type} (body : M T A) (handler : exception -> M T A)
  : M T A :=
  fun w =>
    match body w with
    | (Throw ex, w') => handler ex w'
    | (Return a, w') => (Return a, w')
    | (Undefined, w') => (Undefined, w')
    end.

(** [std::isspace] in the C locale: space, tab, line feed, vertical tab,
    form feed, carriage return. *)
Definition isspace (c : ascii) : bool :=
  let n := nat_of_ascii c in
  Nat.eqb n 32 || (Nat.leb 9 n && Nat.leb n 13).

(** What [iss >> x] does for a [std::string x]: leading white space is
    skipped, then the characters up to the next white space or the end are
    read. *)
Fixpoint skip_ws (s : string) : string :=
  match s with
  | EmptyString => EmptyString
  | String c s' => if isspace c then skip_ws s' else s
  end.

Fixpoint read_word (s : string) : string * string :=
  match s with
  | EmptyString => (EmptyString, EmptyString)
  | String c s' =>
      if isspace c then (EmptyString, s)
      else let (word, rest) := read_word s' in (String c word, rest)
  end.

(** [iss >> x] on the unread text [iss] of the stream, for [x] holding
    [old]: the new value of [x] and the text left unread. With nothing left
    to read the extraction fails and [x] keeps its value; the stream has
    then nothing left for later extractions either. *)
Definition extract_word (old iss : string) : string * string :=
  match skip_ws iss with
  | EmptyString => (old, EmptyString)
  | String c s' => read_word (String c s')
  end.

(** [std::cout << n] for a [size_t]. *)
Definition show_size (n : N) : string := NilZero.string_of_uint (N.to_uint n).

(** The loop of the powerset query over the subsets. *)
Fixpoint print_subsets (subsets : list (DataSet Z)) : M Z unit :=
  match subsets with
  | [] => ret tt
  | subset :: rest =>
      (write_cout (print subset) ;;; write_cout endl ;;; print_subsets rest)%coll
  end.

(** The loop of the cartesian query over the pairs, as the text written. *)
Fixpoint print_pairs (pairs : list (Z * Z)) : string :=
  match pairs with
  | [] => ""
  | p :: rest =>
      "(" ++ show (fst p) ++ ", " ++ show (snd p) ++ ")"
      ++ (match rest with [] => "" | _ :: _ => ", " end) ++ print_pairs rest
  end.

(** The body of the query loop of [main] for one line that is neither
    empty, nor a comment, nor [Q]: the operation is read from the line and
    carried out on the collection. *)
Definition run_query (line : string) : M Z unit :=
  let iss := line in
  let (op, iss) := extract_word "" iss in
  if String.eqb op "print" then
    let (nameA, iss) := extract_word "" iss in
    printSet nameA
  else if String.eqb op "union" || String.eqb op "intersection"
          || String.eqb op "difference" || String.eqb op "symmetric_difference"
  then
    let (nameA, iss) := extract_word "" iss in
    let (nameB, iss) := extract_word "" iss in
    try_catch
      (result <- operate nameA op nameB ;;
       write_cout (print result) ;;;
       write_cout endl)%coll
      (fun ex => write_cerr ("Error: " ++ what ex ++ endl))
  else if String.eqb op "issubset" then
    let (nameA, iss) := extract_word "" iss in
    let (nameB, iss) := extract_word "" iss in
    try_catch
      (A <- getSet nameA ;;
       B <- getSet nameB ;;
       let result := isSubsetOf A B in
       write_cout ("Is " ++ nameA ++ " ⊆ " ++ nameB ++ "? "
                   ++ (if result then "Yes ✅" else "No ❌") ++ endl))%coll
      (fun ex => write_cerr ("Error during issubset: " ++ what ex ++ endl))
  else if String.eqb op "isequal" then
    let (nameA, iss) := extract_word "" iss in
    let (nameB, iss) := extract_word "" iss in
    try_catch
      (A <- getSet nameA ;;
       B <- getSet nameB ;;
       let result := isEqualTo A B in
       write_cout ("Are " ++ nameA ++ " and " ++ nameB ++ " equal? "
                   ++ (if result then "Yes ✅" else "No ❌") ++ endl))%coll
      (fun ex => write_cerr ("Error during isequal: " ++ what ex ++ endl))
  else if String.eqb op "size" then
    let (nameA, iss) := extract_word "" iss in
    try_catch
      (A <- getSet nameA ;;
       write_cout ("Size of set " ++ nameA ++ ": " ++ show_size (size A)
                   ++ " element(s)" ++ endl))%coll
      (fun ex => write_cerr ("Error during size: " ++ what ex ++ endl))
  else if String.eqb op "powerset" then
    let (nameA, iss) := extract_word "" iss in
    try_catch
      (result <- operateUnarySet nameA "powerset" ;;
       write_cout ("Power set of " ++ nameA ++ " contains "
                   ++ show_size (size result) ++ " subsets:" ++ endl) ;;;
       let subsets := getElements result in
       print_subsets subsets)%coll
      (fun ex => write_cerr ("Error during powerset: " ++ what ex ++ endl))
  else if String.eqb op "cartesian" then
    let (nameA, iss) := extract_word "" iss in
    let (nameB, iss) := extract_word "" iss in
    try_catch
      (result <- cartesianProduct nameA nameB ;;
       write_cout ("Cartesian product " ++ nameA ++ " × " ++ nameB ++ " ("
                   ++ show_size (size result) ++ " pairs):" ++ endl) ;;;
       let pairs := getElements result in
       write_cout "{" ;;;
       write_cout (print_pairs pairs) ;;;
       write_cout ("}" ++ endl))%coll
      (fun ex => write_cerr ("Error during cartesian product: " ++ what ex ++ endl))
  else
    write_cerr ("Unknown operation: " ++ op ++ endl).


(** A word, as [iss >> x] reads one: not empty and free of white space. *)
Fixpoint no_space (s : string) : bool :=
  match s with
  | EmptyString => true
  | String c s' => negb (isspace c) && no_space s'
  end.

Definition is_word (s : string) : bool :=
  negb (String.eqb s "") && no_space s.

(** A call that ends by returning or by throwing, with the deque as it
    was. *)
Definition keeps_sets {T A : Type} (m : M T A) (w : World T) : Prop :=
  exists o w', m w = (o, w') /\ sets w' = sets w /\ o <> Undefined.

(** A call that returns, with the deque as it was. *)
Definition completes {T A : Type} (m : M T A) (w : World T) : Prop :=
  exists a w', m w = (Return a, w') /\ sets w' = sets w.

(** ** Properties *)

#[export] Instance int_EqLaws : EqLaws Z.
Proof.
  split; unfold eq_op, int_EqOp; intros.
  - apply Z.eqb_refl.
  - apply Z.eqb_sym.
  - apply Z.eqb_eq in H, H0. subst. apply Z.eqb_refl.
Qed.

(** *** Membership *)

Section ContainsFacts.

Context {T : Type} `{EqOp T}.

Lemma contains_from_app (l1 l2 : list T) (x : T) :
  contains_from (l1 ++ l2) x = contains_from l1 x || contains_from l2 x.
Proof.
  induction l1 as [|a l1 IH]; simpl; [reflexivity|].
  destruct (a == x); [reflexivity | exact IH].
Qed.

Lemma contains_from_snoc (l : list T) (v x : T) :
  contains_from (l ++ [v]) x = contains_from l x || (v == x).
Proof.
  rewrite contains_from_app. simpl. destruct (v == x); reflexivity.
Qed.

Lemma contains_from_true (l : list T) (x : T) :
  contains_from l x = true <-> exists y, In y l /\ y == x = true.
Proof.
  induction l as [|a l IH]; simpl.
  - split; [discriminate | intros (y & [] & _)].
  - destruct (a == x) eqn:E.
    + split; [|reflexivity]. intros _. exists a. auto.
    + rewrite IH. split.
      * intros (y & Hy & Hxy). exists y. auto.
      * intros (y & [<- | Hy] & Hxy); [congruence|]. exists y. auto.
Qed.

Lemma contains_from_false (l : list T) (x : T) :
  contains_from l x = false <-> forall y, In y l -> y == x = false.
Proof.
  induction l as [|a l IH]; simpl.
  - split; [intros _ y [] | reflexivity].
  - destruct (a == x) eqn:E.
    + split; [discriminate|]. intros Hall. rewrite <- E. apply Hall. auto.
    + rewrite IH. split.
      * intros Hall y [<- | Hy]; auto.
      * intros Hall y Hy. apply Hall. auto.
Qed.

Lemma contains_new (setName : string) (x : T) :
  contains (DataSet_new setName) x = false.
Proof. reflexivity. Qed.

Lemma insert_present (s : DataSet T) (v : T) :
  contains s v = true -> insert s v = s.
Proof. unfold insert. intros ->. reflexivity. Qed.

Lemma insert_absent (s : DataSet T) (v : T) :
  contains s v = false ->
  insert s v = {| name := name s; elements := elements s ++ [v] |}.
Proof. unfold insert. intros ->. reflexivity. Qed.

Lemma insert_name (s : DataSet T) (v : T) : name (insert s v) = name s.
Proof. unfold insert. destruct (contains s v); reflexivity. Qed.

Lemma insert_loop_name (guard : T -> bool) (l : list T) (r : DataSet T) :
  name (insert_loop guard l r) = name r.
Proof.
  revert r. induction l as [|v l IH]; intros r; simpl; [reflexivity|].
  rewrite IH. destruct (guard v); [apply insert_name | reflexivity].
Qed.

(** A loop whose guard rejects every value leaves [result] as it was. *)
Lemma insert_loop_rejects (guard : T -> bool) (l : list T) (r : DataSet T) :
  (forall v, In v l -> guard v = false) -> insert_loop guard l r = r.
Proof.
  revert r. induction l as [|v l IH]; intros r Hg; simpl; [reflexivity|].
  rewrite (Hg v) by (left; reflexivity). apply IH. intros u Hu. apply Hg. right. exact Hu.
Qed.

Context `{!EqLaws T}.

Lemma contains_from_self (l : list T) (x : T) : In x l -> contains_from l x = true.
Proof.
  intros Hin. apply contains_from_true. exists x. split; [exact Hin | apply eq_op_refl].
Qed.

(** Membership does not tell equal values apart. *)
Lemma contains_from_respects (l : list T) (x y : T) :
  x == y = true -> contains_from l x = contains_from l y.
Proof.
  intros Hxy.
  destruct (contains_from l y) eqn:Ey.
  - apply contains_from_true in Ey as (z & Hz & Hzy).
    apply contains_from_true. exists z. split; [exact Hz|].
    apply (eq_op_trans z y x); [exact Hzy|]. rewrite eq_op_sym. exact Hxy.
  - apply contains_from_false. intros z Hz.
    destruct (z == x) eqn:Ezx; [|reflexivity].
    rewrite contains_from_false in Ey. rewrite <- (Ey z Hz). symmetry.
    apply (eq_op_trans z x y); assumption.
Qed.

Lemma contains_respects (s : DataSet T) (x y : T) :
  x == y = true -> contains s x = contains s y.
Proof. apply contains_from_respects. Qed.

Lemma contains_insert (s : DataSet T) (v x : T) :
  contains (insert s v) x = contains s x || (v == x).
Proof.
  unfold insert. destruct (contains s v) eqn:Ev; simpl.
  - destruct (v == x) eqn:Evx; [|rewrite orb_false_r; reflexivity].
    rewrite orb_true_r. rewrite <- (contains_respects s v x Evx). exact Ev.
  - unfold contains. simpl. apply contains_from_snoc.
Qed.

Lemma contains_insert_loop (guard : T -> bool) (l : list T) (r : DataSet T) (x : T) :
  contains (insert_loop guard l r) x
  = contains r x || existsb (fun v => guard v && (v == x)) l.
Proof.
  revert r. induction l as [|v l IH]; intros r; simpl.
  - rewrite orb_false_r. reflexivity.
  - rewrite IH. destruct (guard v); simpl.
    + rewrite contains_insert, orb_assoc. reflexivity.
    + reflexivity.
Qed.

(** With a guard that does not tell equal values apart, the loop adds the
    members of [l] that pass the guard. *)
Lemma contains_insert_loop_guard (guard : T -> bool) (l : list T) (r : DataSet T) (x : T) :
  (forall u v, u == v = true -> guard u = guard v) ->
  contains (insert_loop guard l r) x
  = contains r x || (guard x && contains_from l x).
Proof.
  intros Hg. rewrite contains_insert_loop. f_equal.
  induction l as [|v l IH]; simpl.
  - rewrite andb_false_r. reflexivity.
  - rewrite IH. destruct (v == x) eqn:Evx.
    + rewrite (Hg v x Evx). destruct (guard x); reflexivity.
    + rewrite andb_false_r. reflexivity.
Qed.

Lemma contains_unionWith (a b : DataSet T) (x : T) :
  contains (unionWith a b) x = contains a x || contains b x.
Proof.
  unfold unionWith.
  rewrite !contains_insert_loop_guard by reflexivity.
  rewrite contains_new. reflexivity.
Qed.

Lemma contains_intersectionWith (a b : DataSet T) (x : T) :
  contains (intersectionWith a b) x = contains a x && contains b x.
Proof.
  unfold intersectionWith.
  rewrite contains_insert_loop_guard by (intros; apply contains_respects; assumption).
  rewrite contains_new. simpl. apply andb_comm.
Qed.

Lemma contains_differenceWith (a b : DataSet T) (x : T) :
  contains (differenceWith a b) x = contains a x && negb (contains b x).
Proof.
  unfold differenceWith.
  rewrite contains_insert_loop_guard
    by (intros; f_equal; apply contains_respects; assumption).
  rewrite contains_new. simpl. apply andb_comm.
Qed.

Lemma contains_symmetricDifferenceWith (a b : DataSet T) (x : T) :
  contains (symmetricDifferenceWith a b) x
  = (contains a x && negb (contains b x)) || (contains b x && negb (contains a x)).
Proof.
  unfold symmetricDifferenceWith.
  rewrite !contains_insert_loop_guard
    by (intros; f_equal; apply contains_respects; assumption).
  rewrite contains_new. simpl. unfold getElements.
  fold (contains a x). fold (contains b x).
  destruct (contains a x), (contains b x); reflexivity.
Qed.

Lemma isSubsetOf_from_true (l : list T) (b : DataSet T) :
  isSubsetOf_from l b = true <-> forall x, In x l -> contains b x = true.
Proof.
  induction l as [|v l IH]; simpl.
  - split; [intros _ x [] | reflexivity].
  - destruct (contains b v) eqn:Ev; simpl.
    + rewrite IH. split.
      * intros Hall x [<- | Hx]; auto.
      * intros Hall x Hx. apply Hall. auto.
    + split; [discriminate|]. intros Hall. rewrite <- Ev. apply Hall. auto.
Qed.

(** [isSubsetOf] is inclusion of membership. *)
Lemma isSubsetOf_true (a b : DataSet T) :
  isSubsetOf a b = true <-> forall x, contains a x = true -> contains b x = true.
Proof.
  unfold isSubsetOf, getElements. rewrite isSubsetOf_from_true. split.
  - intros Hall x Hx. apply contains_from_true in Hx as (y & Hy & Hyx).
    rewrite <- (contains_respects b y x Hyx). apply Hall. exact Hy.
  - intros Hall x Hx. apply Hall. apply contains_from_self. exact Hx.
Qed.

Lemma isEqualTo_true (a b : DataSet T) :
  isEqualTo a b = true <-> forall x, contains a x = contains b x.
Proof.
  unfold isEqualTo. rewrite andb_true_iff, !isSubsetOf_true. split.
  - intros [Hab Hba] x.
    destruct (contains a x) eqn:Ea, (contains b x) eqn:Eb; try reflexivity.
    + rewrite (Hab x Ea) in Eb. discriminate.
    + rewrite (Hba x Eb) in Ea. discriminate.
  - intros Heq. split; intros x Hx; [rewrite <- Heq | rewrite Heq]; exact Hx.
Qed.

End ContainsFacts.

(** *** Duplicate-freeness *)

Section DistinctFacts.

Context {T : Type} `{EqOp T}.

Lemma no_two_equal_nil : no_two_equal (@nil T).
Proof. intros [|i] j x y _ Hi; discriminate Hi. Qed.

Lemma no_two_equal_cons (a : T) (l : list T) :
  no_two_equal (a :: l) <->
  (forall y, In y l -> a == y = false /\ y == a = false) /\ no_two_equal l.
Proof.
  split.
  - intros Hd. split.
    + intros y Hy. apply In_nth_error in Hy as [n Hn]. split.
      * apply (Hd 0 (S n)); [discriminate | reflexivity | exact Hn].
      * apply (Hd (S n) 0); [discriminate | exact Hn | reflexivity].
    + intros i j x y Hij Hi Hj. apply (Hd (S i) (S j)); auto.
  - intros [Hhead Htail] [|i] [|j] x y Hij Hi Hj; simpl in Hi, Hj.
    + contradiction.
    + injection Hi as <-. apply nth_error_In in Hj. apply Hhead. exact Hj.
    + injection Hj as <-. apply nth_error_In in Hi. apply Hhead. exact Hi.
    + apply (Htail i j); auto.
Qed.

Lemma no_two_equalb_spec (l : list T) :
  no_two_equalb l = true <-> no_two_equal l.
Proof.
  induction l as [|a l IH]; simpl.
  - split; [intros _; apply no_two_equal_nil | reflexivity].
  - rewrite no_two_equal_cons, andb_true_iff, forallb_forall, IH.
    split; intros [Hhead Htail]; (split; [|exact Htail]); intros y Hy.
    + specialize (Hhead y Hy). apply andb_true_iff in Hhead as [H1 H2].
      apply negb_true_iff in H1, H2. auto.
    + destruct (Hhead y Hy) as [-> ->]. reflexivity.
Qed.

Context `{!EqLaws T}.

Lemma no_two_equal_snoc (l : list T) (v : T) :
  no_two_equal l -> contains_from l v = false -> no_two_equal (l ++ [v]).
Proof.
  induction l as [|a l IH]; simpl; intros Hd Hv.
  - apply no_two_equal_cons. split; [intros y [] | apply no_two_equal_nil].
  - apply no_two_equal_cons in Hd as [Hhead Htail].
    destruct (a == v) eqn:Eav; [discriminate|].
    apply no_two_equal_cons. split; [|apply IH; assumption].
    intros y Hy. apply in_app_or in Hy as [Hy | [<- | []]].
    + apply Hhead. exact Hy.
    + split; [exact Eav | rewrite eq_op_sym; exact Eav].
Qed.

Lemma no_two_equal_insert (s : DataSet T) (v : T) :
  no_two_equal (elements s) -> no_two_equal (elements (insert s v)).
Proof.
  intros Hd. unfold insert. destruct (contains s v) eqn:Ev; simpl; [exact Hd|].
  apply no_two_equal_snoc; assumption.
Qed.

Lemma no_two_equal_insert_loop (guard : T -> bool) (l : list T) (r : DataSet T) :
  no_two_equal (elements r) -> no_two_equal (elements (insert_loop guard l r)).
Proof.
  revert r. induction l as [|v l IH]; intros r Hd; simpl; [exact Hd|].
  apply IH. destruct (guard v); [apply no_two_equal_insert|]; exact Hd.
Qed.

(** In a duplicate-free sequence a member occurs once. *)
Lemma occurrences_member (l : list T) (x : T) :
  no_two_equal l -> contains_from l x = true -> occurrences x l = 1.
Proof.
  unfold occurrences. induction l as [|a l IH]; simpl; intros Hd Hx; [discriminate|].
  apply no_two_equal_cons in Hd as [Hhead Htail].
  destruct (a == x) eqn:Eax; simpl.
  - f_equal. clear IH Hx.
    assert (Hnone : forall y, In y l -> y == x = false).
    { intros y Hy. destruct (y == x) eqn:Eyx; [|reflexivity].
      destruct (Hhead y Hy) as [_ Hya]. rewrite <- Hya. symmetry.
      apply (eq_op_trans y x a); [exact Eyx|]. rewrite eq_op_sym. exact Eax. }
    clear Hhead Htail. induction l as [|b l IHl]; simpl; [reflexivity|].
    rewrite (Hnone b) by (left; reflexivity).
    apply IHl. intros y Hy. apply Hnone. right. exact Hy.
  - apply IH; assumption.
Qed.

(** Over a duplicate-free [l], the loop appends, in the order of [l], the
    values that pass the guard and are not in [result] already. *)
Lemma elements_insert_loop (guard : T -> bool) (l : list T) (r : DataSet T) :
  no_two_equal l ->
  elements (insert_loop guard l r)
  = elements r ++ filter (fun v => guard v && negb (contains r v)) l.
Proof.
  revert r. induction l as [|v l IH]; intros r Hd; simpl.
  - rewrite app_nil_r. reflexivity.
  - apply no_two_equal_cons in Hd as [Hhead Htail].
    rewrite (IH _ Htail).
    destruct (guard v) eqn:Eg; simpl.
    + unfold insert. destruct (contains r v) eqn:Ev; simpl; [reflexivity|].
      rewrite <- app_assoc. simpl. do 2 f_equal.
      apply filter_ext_in. intros u Hu. f_equal. f_equal.
      unfold contains. simpl. rewrite contains_from_snoc.
      destruct (Hhead u Hu) as [-> _]. apply orb_false_r.
    + reflexivity.
Qed.

End DistinctFacts.

(** *** Equality of nested element types *)

#[export] Instance DataSet_EqLaws {T : Type} `{EqLaws T} : EqLaws (DataSet T).
Proof.
  split; unfold eq_op, DataSet_EqOp.
  - intros a. apply isEqualTo_true. reflexivity.
  - intros a b. unfold isEqualTo. apply andb_comm.
  - intros a b c Hab Hbc. rewrite isEqualTo_true in *.
    intros x. rewrite Hab. apply Hbc.
Qed.

#[export] Instance pair_EqLaws {T : Type} `{EqLaws T} : EqLaws (T * T).
Proof.
  split.
  - intros [a b]. change ((a == a) && (b == b) = true).
    rewrite !eq_op_refl. reflexivity.
  - intros [a b] [c d]. change ((a == c) && (b == d) = (c == a) && (d == b)).
    rewrite (eq_op_sym a c), (eq_op_sym b d). reflexivity.
  - intros [a b] [c d] [e f].
    change ((a == c) && (b == d) = true -> (c == e) && (d == f) = true ->
            (a == e) && (b == f) = true).
    rewrite !andb_true_iff. intros [Hac Hbd] [Hce Hdf]. split.
    + apply (eq_op_trans a c e); assumption.
    + apply (eq_op_trans b d f); assumption.
Qed.

(** *** The operations of DataSet *)

Section DataSetTheorems.

Context {T : Type} `{EqLaws T}.

Lemma size_constant (s : DataSet T) : size s = 1%N.
Proof. reflexivity. Qed.

Lemma filter_accepts_all (p : T -> bool) (l : list T) :
  (forall x, In x l -> p x = true) -> filter p l = l.
Proof.
  induction l as [|a l IH]; simpl; intros Hp; [reflexivity|].
  rewrite (Hp a) by (left; reflexivity). f_equal. apply IH.
  intros x Hx. apply Hp. right. exact Hx.
Qed.

(** The difference of a set with itself stores nothing. *)
Lemma elements_differenceWith_self (a : DataSet T) :
  elements (differenceWith a a) = [].
Proof.
  unfold differenceWith. rewrite insert_loop_rejects; [reflexivity|].
  intros v Hv. unfold contains. rewrite contains_from_self by exact Hv. reflexivity.
Qed.

Lemma elements_unionWith (a b : DataSet T) :
  no_two_equal (elements a) -> no_two_equal (elements b) ->
  elements (unionWith a b)
  = elements a ++ filter (fun v => negb (contains a v)) (elements b).
Proof.
  intros Ha Hb. unfold unionWith, getElements.
  assert (Hfirst :
    elements (insert_loop (fun _ => true) (elements a)
                (DataSet_new (getName a ++ " ∪ " ++ getName b)))
    = elements a).
  { rewrite elements_insert_loop by exact Ha. simpl.
    apply filter_accepts_all. reflexivity. }
  rewrite elements_insert_loop by exact Hb. rewrite Hfirst. f_equal.
  apply filter_ext. intros v. unfold contains. rewrite Hfirst. reflexivity.
Qed.

(** C5. After [A.insert(v)], [A.contains(v)] is true and the size has grown
    by at most one, both as [size()] reports it and as the number of stored
    elements; when [v] was present already the set is left exactly as it
    was, so that its size is unchanged. [insert] is a total function: it
    has no failing path. *)
Theorem insert_contract (A : DataSet T) (v : T) :
  contains (insert A v) v = true
  /\ (size A <= size (insert A v) <= size A + 1)%N
  /\ List.length (elements A) <= List.length (elements (insert A v))
     <= List.length (elements A) + 1
  /\ (contains A v = true ->
      insert A v = A /\ size (insert A v) = size A).
Proof.
  split; [|split; [|split]].
  - rewrite contains_insert, eq_op_refl. apply orb_true_r.
  - rewrite !size_constant. lia.
  - unfold insert. destruct (contains A v); simpl; [lia|].
    rewrite length_app. simpl. lia.
  - intros Hv. rewrite (insert_present A v Hv). split; reflexivity.
Qed.

(** C6. For duplicate-free sets A and B, [A.unionWith(B)] stores A's
    elements in their stored order followed by the elements of B that A
    does not contain, in B's order; every element of A and every element
    of B is a member and occurs exactly once; the members are those of A
    or B and no others; the result is duplicate-free. The operands are
    passed by reference to const and the function returns a new object. *)
Theorem unionWith_contract (A B : DataSet T)
    (HA : no_two_equal (elements A)) (HB : no_two_equal (elements B)) :
  elements (unionWith A B)
  = elements A ++ filter (fun b => negb (contains A b)) (elements B)
  /\ (forall x, In x (elements A) \/ In x (elements B) ->
        contains (unionWith A B) x = true
        /\ occurrences x (elements (unionWith A B)) = 1)
  /\ (forall x, contains (unionWith A B) x = contains A x || contains B x)
  /\ no_two_equal (elements (unionWith A B)).
Proof.
  assert (Hd : no_two_equal (elements (unionWith A B))).
  { unfold unionWith. do 2 apply no_two_equal_insert_loop. apply no_two_equal_nil. }
  split; [apply elements_unionWith; assumption|].
  split; [|split; [apply contains_unionWith | exact Hd]].
  intros x Hx.
  assert (Hm : contains (unionWith A B) x = true).
  { rewrite contains_unionWith. apply orb_true_iff.
    destruct Hx as [Hx | Hx]; [left | right]; apply contains_from_self; exact Hx. }
  split; [exact Hm|]. apply occurrences_member; assumption.
Qed.

(** C7. For all sets A and B, the symmetric difference of A and B is equal,
    by mutual containment, to the union of A and B less their
    intersection. *)
Theorem symmetricDifferenceWith_law (A B : DataSet T) :
  isEqualTo (symmetricDifferenceWith A B)
            (differenceWith (unionWith A B) (intersectionWith A B)) = true.
Proof.
  apply isEqualTo_true. intros x.
  rewrite contains_symmetricDifferenceWith, contains_differenceWith,
    contains_unionWith, contains_intersectionWith.
  destruct (contains A x), (contains B x); reflexivity.
Qed.

(** C9. Every set obtained from the public interface (the constructor,
    [insert], [setName] and the results of union, intersection, difference
    and symmetric difference) holds no two elements that compare equal;
    the same is true of the power set and of the Cartesian product the
    code returns for it. *)
Theorem reachable_no_two_equal (s : DataSet T) (Hs : reachable s) :
  no_two_equal (elements s)
  /\ no_two_equal (elements (powerSet s))
  /\ (forall other : DataSet T,
        reachable other -> no_two_equal (elements (cartesianProductWith s other))).
Proof.
  split; [|split; [apply no_two_equal_nil | intros; apply no_two_equal_nil]].
  induction Hs; simpl.
  - apply no_two_equal_nil.
  - apply no_two_equal_insert. assumption.
  - assumption.
  - unfold unionWith. do 2 apply no_two_equal_insert_loop. apply no_two_equal_nil.
  - unfold intersectionWith. apply no_two_equal_insert_loop. apply no_two_equal_nil.
  - unfold differenceWith. apply no_two_equal_insert_loop. apply no_two_equal_nil.
  - unfold symmetricDifferenceWith. do 2 apply no_two_equal_insert_loop.
    apply no_two_equal_nil.
Qed.

End DataSetTheorems.

(** *** Lookup in the collection *)

Lemma static_cast_int_small (i : Z) :
  (0 <= i < 2 ^ 31)%Z -> static_cast_int i = i.
Proof.
  intros Hi. unfold static_cast_int.
  rewrite Z.mod_small by (change (2 ^ 32)%Z with (2 * 2 ^ 31)%Z; lia). lia.
Qed.

Lemma NotFound_not_UnsupportedBinary (n op : string) :
  NotFound n <> UnsupportedBinary op.
Proof. discriminate. Qed.

Lemma NotFound_not_UnsupportedUnary (n op : string) :
  NotFound n <> UnsupportedUnary op.
Proof. discriminate. Qed.

Section LookupFacts.

Context {T : Type} `{EqOp T} `{Streamable T}.

Lemma findIndex_from_missing (i : nat) (l : list (DataSet T)) (n : string) :
  ~ In n (map getName l) -> findIndex_from i l n = (-1)%Z.
Proof.
  revert i. induction l as [|s l IH]; intros i Hn; simpl; [reflexivity|].
  destruct (String.eqb (getName s) n) eqn:E.
  - apply String.eqb_eq in E. exfalso. apply Hn. left. exact E.
  - apply IH. intros Hin. apply Hn. right. exact Hin.
Qed.

Lemma findIndex_from_found (i : nat) (l : list (DataSet T)) (n : string) :
  (Z.of_nat (i + List.length l) <= 2 ^ 31)%Z ->
  In n (map getName l) ->
  exists k s,
    findIndex_from i l n = Z.of_nat (i + k)
    /\ nth_error l k = Some s /\ getName s = n.
Proof.
  revert i. induction l as [|s l IH]; intros i Hfit Hn; simpl in *; [contradiction|].
  destruct (String.eqb (getName s) n) eqn:E.
  - apply String.eqb_eq in E. exists 0, s.
    rewrite static_cast_int_small by lia.
    rewrite Nat.add_0_r. auto.
  - destruct Hn as [Hn | Hn]; [apply String.eqb_neq in E; contradiction|].
    destruct (IH (S i)) as (k & s' & Hk & Hnth & Hname); [lia | exact Hn |].
    exists (S k), s'. rewrite Hk. split; [f_equal; lia | auto].
Qed.

Lemma registered_dec (w : World T) (n : string) :
  {registered w n} + {~ registered w n}.
Proof. apply in_dec. apply string_dec. Qed.

Lemma findIndexByName_missing (w : World T) (n : string) :
  ~ registered w n -> findIndexByName w n = (-1)%Z.
Proof. apply findIndex_from_missing. Qed.

Lemma findIndexByName_found (w : World T) (n : string) :
  indices_fit_int w -> registered w n ->
  exists k s,
    findIndexByName w n = Z.of_nat k
    /\ nth_error (sets w) k = Some s /\ getName s = n.
Proof.
  intros Hfit Hn.
  destruct (findIndex_from_found 0 (sets w) n Hfit Hn) as (k & s & Hk & Hs).
  exists k, s. split; [exact Hk | exact Hs].
Qed.

(** While every index is an [int], [hasSet] decides registration. *)
Lemma hasSet_registered (w : World T) (n : string) :
  indices_fit_int w -> (hasSet w n = true <-> registered w n).
Proof.
  intros Hfit. unfold hasSet. destruct (registered_dec w n) as [Hn | Hn].
  - destruct (findIndexByName_found w n Hfit Hn) as (k & s & -> & _).
    destruct (Z.eqb_spec (Z.of_nat k) (-1)); [lia|]. simpl. tauto.
  - rewrite (findIndexByName_missing w n Hn). simpl.
    split; [discriminate | contradiction].
Qed.

Lemma hasSet_false_index (w : World T) (n : string) :
  hasSet w n = false -> findIndexByName w n = (-1)%Z.
Proof.
  unfold hasSet. intros Hh. apply negb_false_iff in Hh. apply Z.eqb_eq. exact Hh.
Qed.

Lemma deque_at_nat (l : list (DataSet T)) (k : nat) :
  deque_at l (Z.of_nat k) = nth_error l k.
Proof.
  unfold deque_at. destruct (Z.ltb_spec (Z.of_nat k) 0); [lia|].
  rewrite Nat2Z.id. reflexivity.
Qed.

Lemma getSet_missing (w : World T) (n : string) :
  findIndexByName w n = (-1)%Z -> getSet n w = (Throw (NotFound n), w).
Proof. intros Hi. unfold getSet. rewrite Hi. reflexivity. Qed.

Lemma getSet_found (w : World T) (n : string) :
  indices_fit_int w -> registered w n ->
  exists s, getSet n w = (Return s, w) /\ In s (sets w) /\ getName s = n.
Proof.
  intros Hfit Hn.
  destruct (findIndexByName_found w n Hfit Hn) as (k & s & Hk & Hnth & Hname).
  exists s. unfold getSet. rewrite Hk.
  destruct (Z.eqb_spec (Z.of_nat k) (-1)); [lia|].
  rewrite deque_at_nat, Hnth. repeat split; [|exact Hname].
  apply nth_error_In in Hnth. exact Hnth.
Qed.

Lemma insertInto_found (w : World T) (n : string) (v : T) :
  indices_fit_int w -> registered w n ->
  exists k s,
    nth_error (sets w) k = Some s /\ getName s = n
    /\ insertInto n v w
       = (Return tt, {| sets := replace_nth (sets w) k (insert s v);
                        cout := cout w; cerr := cerr w |}).
Proof.
  intros Hfit Hn.
  destruct (findIndexByName_found w n Hfit Hn) as (k & s & Hk & Hnth & Hname).
  exists k, s. split; [exact Hnth|]. split; [exact Hname|].
  unfold insertInto. rewrite Hk.
  destruct (Z.eqb_spec (Z.of_nat k) (-1)); [lia|].
  unfold deque_update, bind, get_sets, put_sets. simpl.
  rewrite deque_at_nat, Hnth, Nat2Z.id. reflexivity.
Qed.

Lemma operate_missing_first (w : World T) (a op b : string) :
  ~ registered w a -> operate a op b w = (Throw (NotFound a), w).
Proof.
  intros Ha. unfold operate, bind.
  rewrite (getSet_missing w a (findIndexByName_missing w a Ha)). reflexivity.
Qed.

Lemma operate_missing_second (w : World T) (a op b : string) :
  indices_fit_int w -> registered w a -> ~ registered w b ->
  operate a op b w = (Throw (NotFound b), w).
Proof.
  intros Hfit Ha Hb. unfold operate, bind.
  destruct (getSet_found w a Hfit Ha) as (sa & -> & _).
  rewrite (getSet_missing w b (findIndexByName_missing w b Hb)). reflexivity.
Qed.

Lemma operate_unsupported (w : World T) (a op b : string) :
  indices_fit_int w -> registered w a -> registered w b ->
  binary_keyword op = false ->
  operate a op b w = (Throw (UnsupportedBinary op), w).
Proof.
  intros Hfit Ha Hb Hop. unfold operate, bind.
  destruct (getSet_found w a Hfit Ha) as (sa & -> & _).
  destruct (getSet_found w b Hfit Hb) as (sb & -> & _).
  unfold binary_keyword in Hop. rewrite !orb_false_iff in Hop.
  destruct Hop as [[[-> ->] ->] ->]. reflexivity.
Qed.

Lemma operate_supported (w : World T) (a op b : string) :
  indices_fit_int w -> registered w a -> registered w b ->
  binary_keyword op = true ->
  exists r, operate a op b w = (Return r, w).
Proof.
  intros Hfit Ha Hb Hop. unfold operate, bind.
  destruct (getSet_found w a Hfit Ha) as (sa & -> & _).
  destruct (getSet_found w b Hfit Hb) as (sb & -> & _).
  unfold binary_keyword in Hop.
  destruct (String.eqb op "union"); [eexists; reflexivity|].
  destruct (String.eqb op "intersection"); [eexists; reflexivity|].
  destruct (String.eqb op "difference"); [eexists; reflexivity|].
  destruct (String.eqb op "symmetric_difference"); [eexists; reflexivity|].
  discriminate Hop.
Qed.

Lemma operateUnarySet_missing (w : World T) (n op : string) :
  ~ registered w n -> operateUnarySet n op w = (Throw (NotFound n), w).
Proof.
  intros Hn. unfold operateUnarySet, bind.
  rewrite (getSet_missing w n (findIndexByName_missing w n Hn)). reflexivity.
Qed.

Lemma operateUnarySet_found (w : World T) (n op : string) :
  indices_fit_int w -> registered w n ->
  exists s,
    operateUnarySet n op w
    = (if unary_keyword op then Return (powerSet s)
       else Throw (UnsupportedUnary op), w).
Proof.
  intros Hfit Hn. unfold operateUnarySet, bind, unary_keyword.
  destruct (getSet_found w n Hfit Hn) as (s & -> & _).
  exists s. destruct (String.eqb op "powerset"); reflexivity.
Qed.

Lemma cartesianProduct_missing_first (w : World T) (a b : string) :
  ~ registered w a -> cartesianProduct a b w = (Throw (NotFound a), w).
Proof.
  intros Ha. unfold cartesianProduct, bind.
  rewrite (getSet_missing w a (findIndexByName_missing w a Ha)). reflexivity.
Qed.

Lemma cartesianProduct_missing_second (w : World T) (a b : string) :
  indices_fit_int w -> registered w a -> ~ registered w b ->
  cartesianProduct a b w = (Throw (NotFound b), w).
Proof.
  intros Hfit Ha Hb. unfold cartesianProduct, bind.
  destruct (getSet_found w a Hfit Ha) as (sa & -> & _).
  rewrite (getSet_missing w b (findIndexByName_missing w b Hb)). reflexivity.
Qed.

Lemma cartesianProduct_found (w : World T) (a b : string) :
  indices_fit_int w -> registered w a -> registered w b ->
  exists r, cartesianProduct a b w = (Return r, w).
Proof.
  intros Hfit Ha Hb. unfold cartesianProduct, bind.
  destruct (getSet_found w a Hfit Ha) as (sa & -> & _).
  destruct (getSet_found w b Hfit Hb) as (sb & -> & _).
  eexists. reflexivity.
Qed.

End LookupFacts.

(** *** Errors of the collection *)

Ltac outcome_clash :=
  match goal with
  | Hx : raises_NotFound _ |- _ => destruct Hx as [? Hx]; discriminate Hx
  | Hx : raises_Unsupported _ |- _ => destruct Hx as [? [Hx | Hx]]; discriminate Hx
  | Hx : returns _ |- _ => destruct Hx as [? Hx]; discriminate Hx
  end.

Ltac outcome_shown :=
  solve [ eexists; reflexivity
        | eexists; left; reflexivity
        | eexists; right; reflexivity ].

Ltac outcome_iff :=
  simpl fst;
  split; intros;
  try solve [ outcome_clash | outcome_shown | tauto | intuition congruence ].

Section CollectionTheorems.

Context {T : Type} `{EqOp T} `{Streamable T}.

(** C8, as the code has it. In a collection whose indices are [int]s (at
    most 2^31 sets): [getSet], [insertInto], [operate], [operateUnarySet]
    and [cartesianProduct] raise NotFound exactly when a referenced name is
    not registered; [operate] raises UnsupportedOperation exactly when both
    names are registered and the keyword is none of union, intersection,
    difference, symmetric_difference, and [operateUnarySet] exactly when
    the name is registered and the keyword is not powerset; each call
    returns exactly when all its names are registered and its keyword, if
    it takes one, is recognized. *)
Theorem collection_error_contract (w : World T) (Hfit : indices_fit_int w) :
  (forall n,
     (raises_NotFound (fst (getSet n w)) <-> ~ registered w n)
     /\ (returns (fst (getSet n w)) <-> registered w n))
  /\ (forall n v,
     (raises_NotFound (fst (insertInto n v w)) <-> ~ registered w n)
     /\ (returns (fst (insertInto n v w)) <-> registered w n))
  /\ (forall a op b,
     (raises_NotFound (fst (operate a op b w)) <->
        ~ registered w a \/ ~ registered w b)
     /\ (raises_Unsupported (fst (operate a op b w)) <->
        registered w a /\ registered w b /\ binary_keyword op = false)
     /\ (returns (fst (operate a op b w)) <->
        registered w a /\ registered w b /\ binary_keyword op = true))
  /\ (forall n op,
     (raises_NotFound (fst (operateUnarySet n op w)) <-> ~ registered w n)
     /\ (raises_Unsupported (fst (operateUnarySet n op w)) <->
        registered w n /\ unary_keyword op = false)
     /\ (returns (fst (operateUnarySet n op w)) <->
        registered w n /\ unary_keyword op = true))
  /\ (forall a b,
     (raises_NotFound (fst (cartesianProduct a b w)) <->
        ~ registered w a \/ ~ registered w b)
     /\ (returns (fst (cartesianProduct a b w)) <->
        registered w a /\ registered w b)).
Proof.
  split; [|split; [|split; [|split]]].
  - intros n. destruct (registered_dec w n) as [Hn | Hn].
    + destruct (getSet_found w n Hfit Hn) as (s & -> & _).
      split; outcome_iff.
    + rewrite (getSet_missing w n (findIndexByName_missing w n Hn)).
      split; outcome_iff.
  - intros n v. destruct (registered_dec w n) as [Hn | Hn].
    + destruct (insertInto_found w n v Hfit Hn) as (k & s & _ & _ & ->).
      split; outcome_iff.
    + unfold insertInto. rewrite (findIndexByName_missing w n Hn).
      split; outcome_iff.
  - intros a op b.
    destruct (registered_dec w a) as [Ha | Ha].
    2:{ rewrite (operate_missing_first w a op b Ha).
        split; [|split]; outcome_iff. }
    destruct (registered_dec w b) as [Hb | Hb].
    2:{ rewrite (operate_missing_second w a op b Hfit Ha Hb).
        split; [|split]; outcome_iff. }
    destruct (binary_keyword op) eqn:Hop.
    + destruct (operate_supported w a op b Hfit Ha Hb Hop) as [r ->].
      split; [|split]; outcome_iff.
    + rewrite (operate_unsupported w a op b Hfit Ha Hb Hop).
      split; [|split]; outcome_iff.
  - intros n op. destruct (registered_dec w n) as [Hn | Hn].
    + destruct (operateUnarySet_found w n op Hfit Hn) as [s ->].
      destruct (unary_keyword op); split; [|split| |split]; outcome_iff.
    + rewrite (operateUnarySet_missing w n op Hn).
      split; [|split]; outcome_iff.
  - intros a b.
    destruct (registered_dec w a) as [Ha | Ha].
    2:{ rewrite (cartesianProduct_missing_first w a b Ha). split; outcome_iff. }
    destruct (registered_dec w b) as [Hb | Hb].
    2:{ rewrite (cartesianProduct_missing_second w a b Hfit Ha Hb).
        split; outcome_iff. }
    destruct (cartesianProduct_found w a b Hfit Ha Hb) as [r ->].
    split; outcome_iff.
Qed.

(** C10. For a name [n] with [hasSet(n)] false, [printSet(n)] returns
    normally: the deque and [std::cout] are as before and [std::cerr] has
    received the one line [Set 'n' not found.]; [getSet(n)] throws on the
    same input. *)
Theorem printSet_unregistered (w : World T) (n : string)
    (Hn : hasSet w n = false) :
  printSet n w
  = (Return tt,
     {| sets := sets w;
        cout := cout w;
        cerr := cerr w ++ "Set '" ++ n ++ "' not found." ++ endl |})
  /\ getSet n w = (Throw (NotFound n), w).
Proof.
  apply hasSet_false_index in Hn. split.
  - unfold printSet. rewrite Hn. reflexivity.
  - apply getSet_missing. exact Hn.
Qed.

End CollectionTheorems.

(** *** The scenario of the specification *)

(** A = {1, 2, 3} and B = {2, 3, 4}: the stored elements of each result,
    the subset test and the equality test. *)
Example scenario_algebra :
  elements (unionWith example_A example_B) = [1; 2; 3; 4]%Z
  /\ elements (intersectionWith example_A example_B) = [2; 3]%Z
  /\ elements (differenceWith example_A example_B) = [1]%Z
  /\ elements (symmetricDifferenceWith example_A example_B) = [1; 4]%Z
  /\ isSubsetOf example_A example_B = false
  /\ isEqualTo example_A example_A = true.
Proof. repeat split. Qed.

(** The collection that registers A and B answers a union by name, and
    prints A in the stored order. *)
Example scenario_collection :
  getSetNames example_collection = ["A"; "B"]
  /\ fst (operate "A" "union" "B" example_collection)
     = Return {| name := "(A union B)"; elements := [1; 2; 3; 4]%Z |}
  /\ cout (snd (printSet "A" example_collection)) = ("A = {1, 2, 3}" ++ endl)%string.
Proof. repeat split. Qed.

(** *** The unfinished member functions, on the scenario's sets *)

(** C1. [size()] does not count: on a fresh set, which stores nothing, it
    answers 1; on A = {1, 2, 3} it answers 1; and inserting the absent value
    7 into A stores a fourth element while the answer stays 1. *)
Theorem size_ignores_elements :
  size (DataSet_new (T := Z) "A") = 1%N
  /\ List.length (elements (DataSet_new (T := Z) "A")) = 0
  /\ size example_A = 1%N
  /\ List.length (elements example_A) = 3
  /\ contains example_A 7%Z = false
  /\ List.length (elements (insert example_A 7%Z)) = 4
  /\ size (insert example_A 7%Z) = size example_A.
Proof. repeat split. Qed.

(** C2. [powerSet()] stores no subset: for A = {1, 2, 3}, where 8 subsets
    are due, and for the empty set, where the empty set is due, the result
    has no element, so that neither the empty set nor A is a member; its
    [size()] answers 1. *)
Theorem powerSet_is_empty :
  elements (powerSet example_A) = []
  /\ contains (powerSet example_A) example_A = false
  /\ contains (powerSet example_A) (DataSet_new "") = false
  /\ size (powerSet example_A) = 1%N
  /\ elements (powerSet (DataSet_new (T := Z) "E")) = []
  /\ contains (powerSet (DataSet_new (T := Z) "E")) (DataSet_new "") = false.
Proof. repeat split. Qed.

(** C3. [cartesianProductWith()] stores no pair: for A = {1, 2, 3} and
    B = {2, 3, 4}, where 9 pairs are due, the result has no element, the
    pair (1, 2) is not a member, and its [size()] answers 1. *)
Theorem cartesianProductWith_is_empty :
  elements (cartesianProductWith example_A example_B) = []
  /\ contains (cartesianProductWith example_A example_B) (1%Z, 2%Z) = false
  /\ size (cartesianProductWith example_A example_B) = 1%N
  /\ List.length (elements example_A) * List.length (elements example_B) = 9.
Proof. repeat split. Qed.

(** C4. For A = {1, 2, 3} the difference of A with itself stores no element,
    and [size()] answers 1 for it, not 0. *)
Theorem differenceWith_self_size :
  elements (differenceWith example_A example_A) = []
  /\ size (differenceWith example_A example_A) = 1%N.
Proof. repeat split. Qed.

(** *** Instances on the scenario's sets *)

Lemma example_A_no_two_equal : no_two_equal (elements example_A).
Proof. apply no_two_equalb_spec. reflexivity. Qed.

Lemma example_B_no_two_equal : no_two_equal (elements example_B).
Proof. apply no_two_equalb_spec. reflexivity. Qed.

Lemma example_collection_fits : indices_fit_int example_collection.
Proof. vm_compute. discriminate. Qed.

(** [insert] of the present value 2 into A = {1, 2, 3}. *)
Lemma insert_contract_witness :
  contains (insert example_A 2%Z) 2%Z = true
  /\ (size example_A <= size (insert example_A 2%Z) <= size example_A + 1)%N
  /\ List.length (elements example_A)
     <= List.length (elements (insert example_A 2%Z))
     <= List.length (elements example_A) + 1
  /\ (contains example_A 2%Z = true ->
      insert example_A 2%Z = example_A
      /\ size (insert example_A 2%Z) = size example_A).
Proof. exact (insert_contract (T := Z) example_A 2%Z). Defined.

(** The union of A = {1, 2, 3} and B = {2, 3, 4} is stored as 1, 2, 3, 4. *)
Lemma unionWith_contract_witness :
  no_two_equal (elements example_A)
  /\ no_two_equal (elements example_B)
  /\ elements (unionWith example_A example_B) = [1; 2; 3; 4]%Z
  /\ occurrences 3%Z (elements (unionWith example_A example_B)) = 1.
Proof.
  split; [exact example_A_no_two_equal|].
  split; [exact example_B_no_two_equal|].
  pose proof (unionWith_contract (T := Z) example_A example_B
                example_A_no_two_equal example_B_no_two_equal)
    as (Horder & Honce & _).
  split.
  - rewrite Horder. reflexivity.
  - apply (Honce 3%Z). left. simpl. auto.
Defined.

(** The law of the symmetric difference on A and B. *)
Lemma symmetricDifferenceWith_law_witness :
  isEqualTo (symmetricDifferenceWith example_A example_B)
            (differenceWith (unionWith example_A example_B)
                            (intersectionWith example_A example_B)) = true.
Proof. exact (symmetricDifferenceWith_law (T := Z) example_A example_B). Defined.

(** The symmetric difference of A and B is reachable, hence duplicate-free. *)
Lemma reachable_no_two_equal_witness :
  reachable (symmetricDifferenceWith example_A example_B)
  /\ no_two_equal (elements (symmetricDifferenceWith example_A example_B)).
Proof.
  assert (Hr : reachable (symmetricDifferenceWith example_A example_B))
    by (apply reach_symmetric_difference; repeat constructor).
  split; [exact Hr|].
  exact (proj1 (reachable_no_two_equal (T := Z) _ Hr)).
Defined.

(** With A and B registered, the keyword xor is refused. *)
Lemma collection_error_contract_witness :
  indices_fit_int example_collection
  /\ (raises_Unsupported (fst (operate "A" "xor" "B" example_collection)) <->
      registered example_collection "A" /\ registered example_collection "B"
      /\ binary_keyword "xor" = false).
Proof.
  split; [exact example_collection_fits|].
  pose proof (collection_error_contract example_collection example_collection_fits)
    as (_ & _ & Hoperate & _).
  exact (proj1 (proj2 (Hoperate "A" "xor" "B"))).
Defined.

(** C8, as stated, fails where a name is missing and the keyword is unknown:
    with A registered and C not, [operate("A", "xor", "C")] raises NotFound
    for C; the keyword xor is not recognized and no UnsupportedOperation is
    raised. *)
Lemma operate_missing_name_unknown_keyword :
  registered example_collection "A"
  /\ ~ registered example_collection "C"
  /\ binary_keyword "xor" = false
  /\ fst (operate "A" "xor" "C" example_collection) = Throw (NotFound "C")
  /\ ~ raises_Unsupported (fst (operate "A" "xor" "C" example_collection)).
Proof.
  split; [unfold registered; simpl; auto|].
  split; [unfold registered; simpl; intros [Hc | [Hc | []]]; discriminate Hc|].
  split; [reflexivity|].
  split; [reflexivity|].
  intros [op [Hop | Hop]]; discriminate Hop.
Qed.

(** [printSet] of the unregistered name C. *)
Lemma printSet_unregistered_witness :
  hasSet example_collection "C" = false
  /\ printSet "C" example_collection
     = (Return tt,
        {| sets := sets example_collection;
           cout := "";
           cerr := "Set 'C' not found." ++ endl |})
  /\ getSet "C" example_collection = (Throw (NotFound "C"), example_collection).
Proof.
  split; [reflexivity|].
  exact (printSet_unregistered example_collection "C" eq_refl).
Defined.

(** ** Further properties of DataSet *)

Section DataSetFurther.

Context {T : Type} `{EqLaws T}.

Lemma contains_from_filter (p : T -> bool) (l : list T) (x : T) :
  contains_from (filter p l) x = true -> contains_from l x = true.
Proof.
  rewrite !contains_from_true. intros (y & Hy & Hyx).
  apply filter_In in Hy as [Hy _]. exists y. auto.
Qed.

Lemma contains_from_Permutation (l1 l2 : list T) (x : T) :
  Permutation l1 l2 -> contains_from l1 x = contains_from l2 x.
Proof.
  intros Hp.
  destruct (contains_from l2 x) eqn:E2.
  - apply contains_from_true in E2 as (y & Hy & Hyx).
    apply contains_from_true. exists y. split; [|exact Hyx].
    apply (Permutation_in y (Permutation_sym Hp) Hy).
  - apply contains_from_false. intros y Hy.
    rewrite contains_from_false in E2. apply E2.
    apply (Permutation_in y Hp Hy).
Qed.

(** X1. [insert] changes membership by the inserted value only: afterwards a
    value is a member when it was one before or compares equal to the
    inserted one. An absent value is stored last, behind the elements stored
    before, and the name is kept. *)
Theorem insert_membership (s : DataSet T) (v : T) :
  (forall x, contains (insert s v) x = contains s x || (v == x))
  /\ (contains s v = false -> elements (insert s v) = elements s ++ [v])
  /\ name (insert s v) = name s.
Proof.
  split; [intros x; apply contains_insert|].
  split; [|apply insert_name].
  intros Hv. rewrite (insert_absent s v Hv). reflexivity.
Qed.

(** X2. [isSubsetOf] answers true exactly when every member of [this] is a
    member of [other]; for a set that stores nothing it is true whatever
    [other] is. *)
Theorem isSubsetOf_inclusion (a b : DataSet T) :
  (isSubsetOf a b = true <-> forall x, contains a x = true -> contains b x = true)
  /\ (elements a = [] -> isSubsetOf a b = true).
Proof.
  split; [apply isSubsetOf_true|].
  intros Ha. unfold isSubsetOf, getElements. rewrite Ha. reflexivity.
Qed.

(** X3. [isEqualTo] answers true exactly when both sets have the same members. *)
Theorem isEqualTo_same_members (a b : DataSet T) :
  isEqualTo a b = true <-> forall x, contains a x = contains b x.
Proof. apply isEqualTo_true. Qed.

(** X4. [isEqualTo] is reflexive, symmetric and transitive. *)
Theorem isEqualTo_equivalence (a b c : DataSet T) :
  isEqualTo a a = true
  /\ isEqualTo a b = isEqualTo b a
  /\ (isEqualTo a b = true -> isEqualTo b c = true -> isEqualTo a c = true).
Proof.
  split; [apply isEqualTo_true; reflexivity|].
  split; [unfold isEqualTo; apply andb_comm|].
  rewrite !isEqualTo_true. intros Hab Hbc x. rewrite Hab. apply Hbc.
Qed.

(** X5. [isEqualTo] looks at neither the names nor the stored order: two sets
    whose element sequences are permutations of each other are equal. *)
Theorem isEqualTo_order_and_name (a b : DataSet T) :
  Permutation (elements a) (elements b) -> isEqualTo a b = true.
Proof.
  intros Hp. apply isEqualTo_true. intros x.
  apply contains_from_Permutation. exact Hp.
Qed.

End DataSetFurther.

Section DataSetAlgebra.

Context {T : Type} `{EqLaws T}.

Lemma filter_length_split (p q : T -> bool) (l : list T) :
  (forall x, In x l -> p x && q x = false) ->
  List.length (filter (fun x => p x || q x) l)
  = List.length (filter p l) + List.length (filter q l).
Proof.
  induction l as [|a l IH]; simpl; intros Hpq; [reflexivity|].
  assert (Ha := Hpq a (or_introl eq_refl)).
  assert (IH' := IH (fun x Hx => Hpq x (or_intror Hx))).
  destruct (p a), (q a); simpl in *; try discriminate; lia.
Qed.

Lemma filter_length_complement (p : T -> bool) (l : list T) :
  List.length (filter p l) + List.length (filter (fun x => negb (p x)) l)
  = List.length l.
Proof.
  induction l as [|a l IH]; simpl; [reflexivity|].
  destruct (p a); simpl; lia.
Qed.

(** In a duplicate-free sequence, the number of elements equal to [a] is 1
    or 0, as [a] is a member or not. *)
Lemma occurrences_indicator (l : list T) (a : T) :
  no_two_equal l ->
  occurrences a l = if contains_from l a then 1 else 0.
Proof.
  intros Hd. destruct (contains_from l a) eqn:Ea.
  - apply occurrences_member; assumption.
  - unfold occurrences. rewrite contains_from_false in Ea.
    induction l as [|b l IH]; simpl; [reflexivity|].
    rewrite (Ea b) by (left; reflexivity).
    apply no_two_equal_cons in Hd as [_ Hd].
    apply IH; [exact Hd|]. intros y Hy. apply Ea. right. exact Hy.
Qed.

(** Two duplicate-free sequences have as many elements of the first in the
    second as elements of the second in the first. *)
Lemma common_count (l1 l2 : list T) :
  no_two_equal l1 -> no_two_equal l2 ->
  List.length (filter (contains_from l2) l1)
  = List.length (filter (contains_from l1) l2).
Proof.
  revert l2. induction l1 as [|a l1 IH]; intros l2 H1 H2.
  - simpl. induction l2 as [|b l2 IHl]; simpl; [reflexivity|].
    apply IHl. apply no_two_equal_cons in H2. tauto.
  - apply no_two_equal_cons in H1 as [Hhead Htail].
    assert (Hsplit :
      List.length (filter (contains_from (a :: l1)) l2)
      = List.length (filter (fun y => a == y) l2)
        + List.length (filter (contains_from l1) l2)).
    { rewrite <- filter_length_split.
      - reflexivity.
      - intros y _. destruct (a == y) eqn:Eay; [|reflexivity]. simpl.
        apply contains_from_false. intros z Hz.
        destruct (z == y) eqn:Ezy; [|reflexivity].
        destruct (Hhead z Hz) as [Haz _]. rewrite <- Haz. symmetry.
        apply (eq_op_trans a y z); [exact Eay|]. rewrite eq_op_sym. exact Ezy. }
    rewrite Hsplit, <- (IH l2 Htail H2).
    assert (Hocc : List.length (filter (fun y => a == y) l2)
                   = if contains_from l2 a then 1 else 0).
    { rewrite <- (occurrences_indicator l2 a H2). unfold occurrences.
      f_equal. apply filter_ext. intros y. apply eq_op_sym. }
    rewrite Hocc. simpl. destruct (contains_from l2 a); reflexivity.
Qed.

Lemma elements_guarded_loop (guard : T -> bool) (a : DataSet T) (n : string) :
  no_two_equal (elements a) ->
  elements (insert_loop guard (elements a) (DataSet_new n))
  = filter guard (elements a).
Proof.
  intros Ha. rewrite elements_insert_loop by exact Ha. simpl.
  apply filter_ext. intros v. apply andb_true_r.
Qed.

Lemma elements_intersectionWith (a b : DataSet T) :
  no_two_equal (elements a) ->
  elements (intersectionWith a b) = filter (fun v => contains b v) (elements a).
Proof. intros Ha. unfold intersectionWith. apply elements_guarded_loop. exact Ha. Qed.

Lemma elements_differenceWith (a b : DataSet T) :
  no_two_equal (elements a) ->
  elements (differenceWith a b)
  = filter (fun v => negb (contains b v)) (elements a).
Proof. intros Ha. unfold differenceWith. apply elements_guarded_loop. exact Ha. Qed.

Lemma elements_symmetricDifferenceWith (a b : DataSet T) :
  no_two_equal (elements a) -> no_two_equal (elements b) ->
  elements (symmetricDifferenceWith a b)
  = filter (fun v => negb (contains b v)) (elements a)
    ++ filter (fun v => negb (contains a v)) (elements b).
Proof.
  intros Ha Hb. unfold symmetricDifferenceWith, getElements.
  rewrite elements_insert_loop by exact Hb.
  rewrite elements_guarded_loop by exact Ha. f_equal.
  apply filter_ext. intros v.
  destruct (contains a v) eqn:Ev; simpl; [reflexivity|].
  apply negb_true_iff. unfold contains at 1.
  rewrite elements_guarded_loop by exact Ha.
  destruct (contains_from (filter (fun v0 => negb (contains b v0)) (elements a)) v)
    eqn:Ef; [|reflexivity].
  apply contains_from_filter in Ef. unfold contains in Ev. congruence.
Qed.

(** X6. For a duplicate-free A, [A.intersectionWith(B)] stores, in A's order,
    the elements of A that B contains; its members are the common members of
    A and B, and it is named after both operands. *)
Theorem intersectionWith_contract (A B : DataSet T)
    (HA : no_two_equal (elements A)) :
  elements (intersectionWith A B) = filter (fun v => contains B v) (elements A)
  /\ (forall x, contains (intersectionWith A B) x = contains A x && contains B x)
  /\ no_two_equal (elements (intersectionWith A B))
  /\ name (intersectionWith A B) = (name A ++ " ∩ " ++ name B)%string.
Proof.
  split; [apply elements_intersectionWith; exact HA|].
  split; [apply contains_intersectionWith|]. split.
  - unfold intersectionWith. apply no_two_equal_insert_loop, no_two_equal_nil.
  - unfold intersectionWith. apply insert_loop_name.
Qed.

(** X7. For a duplicate-free A, [A.differenceWith(B)] stores, in A's order, the
    elements of A that B does not contain; its members are the members of A
    that are not members of B. *)
Theorem differenceWith_contract (A B : DataSet T)
    (HA : no_two_equal (elements A)) :
  elements (differenceWith A B)
  = filter (fun v => negb (contains B v)) (elements A)
  /\ (forall x, contains (differenceWith A B) x
                = contains A x && negb (contains B x))
  /\ no_two_equal (elements (differenceWith A B))
  /\ name (differenceWith A B) = (name A ++ "-" ++ name B)%string.
Proof.
  split; [apply elements_differenceWith; exact HA|].
  split; [apply contains_differenceWith|]. split.
  - unfold differenceWith. apply no_two_equal_insert_loop, no_two_equal_nil.
  - unfold differenceWith. apply insert_loop_name.
Qed.

(** X8. For duplicate-free A and B, [A.symmetricDifferenceWith(B)] stores the
    elements of A that B does not contain, in A's order, followed by the
    elements of B that A does not contain, in B's order; its members are the
    values that are members of exactly one operand. *)
Theorem symmetricDifferenceWith_contract (A B : DataSet T)
    (HA : no_two_equal (elements A)) (HB : no_two_equal (elements B)) :
  elements (symmetricDifferenceWith A B)
  = filter (fun v => negb (contains B v)) (elements A)
    ++ filter (fun v => negb (contains A v)) (elements B)
  /\ (forall x, contains (symmetricDifferenceWith A B) x
                = xorb (contains A x) (contains B x))
  /\ no_two_equal (elements (symmetricDifferenceWith A B)).
Proof.
  split; [apply elements_symmetricDifferenceWith; assumption|]. split.
  - intros x. rewrite contains_symmetricDifferenceWith.
    destruct (contains A x), (contains B x); reflexivity.
  - unfold symmetricDifferenceWith.
    do 2 apply no_two_equal_insert_loop. apply no_two_equal_nil.
Qed.

(** X9. Union and intersection are commutative up to [isEqualTo]; the stored
    order may differ. *)
Theorem union_intersection_commutative (A B : DataSet T) :
  isEqualTo (unionWith A B) (unionWith B A) = true
  /\ isEqualTo (intersectionWith A B) (intersectionWith B A) = true.
Proof.
  split; apply isEqualTo_true; intros x.
  - rewrite !contains_unionWith. apply orb_comm.
  - rewrite !contains_intersectionWith. apply andb_comm.
Qed.

(** X10. Union and intersection are associative up to [isEqualTo], and
    intersection distributes over union. *)
Theorem union_intersection_associative (A B C : DataSet T) :
  isEqualTo (unionWith (unionWith A B) C) (unionWith A (unionWith B C)) = true
  /\ isEqualTo (intersectionWith (intersectionWith A B) C)
               (intersectionWith A (intersectionWith B C)) = true
  /\ isEqualTo (intersectionWith A (unionWith B C))
               (unionWith (intersectionWith A B) (intersectionWith A C)) = true.
Proof.
  repeat split; apply isEqualTo_true; intros x;
    rewrite ?contains_unionWith, ?contains_intersectionWith,
      ?contains_unionWith, ?contains_intersectionWith;
    destruct (contains A x), (contains B x), (contains C x); reflexivity.
Qed.

(** X11. A set operated against itself: union and intersection give a set equal
    to it, difference and symmetric difference store nothing. *)
Theorem self_operations (A : DataSet T) :
  isEqualTo (unionWith A A) A = true
  /\ isEqualTo (intersectionWith A A) A = true
  /\ elements (differenceWith A A) = []
  /\ elements (symmetricDifferenceWith A A) = [].
Proof.
  split; [apply isEqualTo_true; intros x; rewrite contains_unionWith;
          apply orb_diag|].
  split; [apply isEqualTo_true; intros x; rewrite contains_intersectionWith;
          apply andb_diag|].
  split; [apply elements_differenceWith_self|].
  assert (Hrej : forall v, In v (elements A) -> negb (contains A v) = false).
  { intros v Hv. unfold contains. rewrite contains_from_self by exact Hv.
    reflexivity. }
  unfold symmetricDifferenceWith, getElements.
  rewrite !insert_loop_rejects by exact Hrej. reflexivity.
Qed.

(** X12. Each operand is a subset of the union; the intersection and the
    difference are subsets of the first operand, the intersection of the
    second as well; the difference and the second operand share no member. *)
Theorem operation_inclusions (A B : DataSet T) :
  isSubsetOf A (unionWith A B) = true
  /\ isSubsetOf B (unionWith A B) = true
  /\ isSubsetOf (intersectionWith A B) A = true
  /\ isSubsetOf (intersectionWith A B) B = true
  /\ isSubsetOf (differenceWith A B) A = true
  /\ elements (intersectionWith (differenceWith A B) B) = [].
Proof.
  repeat split; try (apply isSubsetOf_true; intros x;
    rewrite ?contains_unionWith, ?contains_intersectionWith,
      ?contains_differenceWith;
    destruct (contains A x), (contains B x); simpl; congruence).
  unfold intersectionWith at 1. rewrite insert_loop_rejects; [reflexivity|].
  intros v Hv.
  apply contains_from_self in Hv. fold (contains (differenceWith A B) v) in Hv.
  rewrite contains_differenceWith in Hv.
  destruct (contains B v); [|reflexivity].
  rewrite andb_false_r in Hv. discriminate.
Qed.

(** X13. The intersection and the difference split the first operand: for a
    duplicate-free A their stored lengths add up to A's, and their union is
    equal to A. *)
Theorem intersection_difference_partition (A B : DataSet T)
    (HA : no_two_equal (elements A)) :
  List.length (elements (intersectionWith A B))
  + List.length (elements (differenceWith A B))
  = List.length (elements A)
  /\ isEqualTo (unionWith (intersectionWith A B) (differenceWith A B)) A = true.
Proof.
  split.
  - rewrite elements_intersectionWith, elements_differenceWith by exact HA.
    apply filter_length_complement.
  - apply isEqualTo_true. intros x.
    rewrite contains_unionWith, contains_intersectionWith, contains_differenceWith.
    destruct (contains A x), (contains B x); reflexivity.
Qed.

(** X14. Inclusion and exclusion on the stored lengths: for duplicate-free A and
    B, the union and the intersection store together as many elements as A
    and B do. *)
Theorem stored_length_inclusion_exclusion (A B : DataSet T)
    (HA : no_two_equal (elements A)) (HB : no_two_equal (elements B)) :
  List.length (elements (unionWith A B))
  + List.length (elements (intersectionWith A B))
  = List.length (elements A) + List.length (elements B).
Proof.
  rewrite elements_unionWith by assumption.
  rewrite elements_intersectionWith by exact HA.
  rewrite length_app.
  pose proof (filter_length_complement (fun v => contains A v) (elements B)) as Hc.
  assert (Hcommon :
    List.length (filter (fun v => contains B v) (elements A))
    = List.length (filter (fun v => contains A v) (elements B)))
    by exact (common_count (elements A) (elements B) HA HB).
  lia.
Qed.

End DataSetAlgebra.

Section DataSetEdges.

Context {T : Type} `{EqLaws T}.

Lemma filter_rejects_all (p : T -> bool) (l : list T) :
  (forall x, In x l -> p x = false) -> filter p l = [].
Proof.
  induction l as [|a l IH]; simpl; intros Hp; [reflexivity|].
  rewrite (Hp a) by (left; reflexivity). apply IH.
  intros x Hx. apply Hp. right. exact Hx.
Qed.

(** X15. A set that stores nothing is neutral for union and for the subtrahend
    of a difference, and absorbing for intersection: against a duplicate-free
    A, the union, in either order, and [A.differenceWith(E)] store A's
    elements in A's order; the intersection, in either order, and
    [E.differenceWith(A)] store nothing. *)
Theorem operations_with_empty_set (A E : DataSet T)
    (HA : no_two_equal (elements A)) (HE : elements E = []) :
  elements (unionWith A E) = elements A
  /\ elements (unionWith E A) = elements A
  /\ elements (intersectionWith A E) = []
  /\ elements (intersectionWith E A) = []
  /\ elements (differenceWith A E) = elements A
  /\ elements (differenceWith E A) = []
  /\ elements (symmetricDifferenceWith A E) = elements A.
Proof.
  assert (HdE : no_two_equal (elements E)) by (rewrite HE; apply no_two_equal_nil).
  assert (HcE : forall v, contains E v = false)
    by (intros v; unfold contains; rewrite HE; reflexivity).
  repeat split.
  - rewrite elements_unionWith by assumption. rewrite HE. apply app_nil_r.
  - rewrite elements_unionWith by assumption. rewrite HE. simpl.
    apply filter_accepts_all. intros x _. rewrite HcE. reflexivity.
  - rewrite elements_intersectionWith by assumption.
    apply filter_rejects_all. intros x _. apply HcE.
  - rewrite elements_intersectionWith by assumption. rewrite HE. reflexivity.
  - rewrite elements_differenceWith by assumption.
    apply filter_accepts_all. intros x _. rewrite HcE. reflexivity.
  - rewrite elements_differenceWith by assumption. rewrite HE. reflexivity.
  - rewrite elements_symmetricDifferenceWith by assumption. rewrite HE. simpl.
    rewrite app_nil_r. apply filter_accepts_all. intros x _. rewrite HcE. reflexivity.
Qed.

End DataSetEdges.

Section PrintFormat.

Context {T : Type} `{Streamable T}.

Lemma append_empty_r (s : string) : (s ++ "")%string = s.
Proof. induction s as [|c s IH]; simpl; [reflexivity | rewrite IH; reflexivity]. Qed.

Lemma append_assoc_r (a b c : string) :
  ((a ++ b) ++ c)%string = (a ++ (b ++ c))%string.
Proof. induction a as [|x a IH]; simpl; [reflexivity | rewrite IH; reflexivity]. Qed.

Lemma print_from_concat (l : list T) :
  print_from l = String.concat ", " (map show l).
Proof.
  induction l as [|x l IH]; [reflexivity|].
  destruct l as [|y l].
  - simpl. apply append_empty_r.
  - change (print_from (x :: y :: l))
      with (show x ++ ", " ++ print_from (y :: l))%string.
    rewrite IH. reflexivity.
Qed.

(** X16. [print] writes the elements in their stored order, each as its
    [operator<<] writes it, separated by a comma and a space, with no
    separator after the last, between braces; the name and an equals sign
    come first unless the name is empty. A set that stores nothing is
    written as two braces. *)
Theorem print_format (s : DataSet T) :
  print s
  = ((if String.eqb (name s) "" then "" else name s ++ " = ")
     ++ "{" ++ String.concat ", " (map show (elements s)) ++ "}")%string
  /\ (elements s = [] -> name s <> ""%string ->
      print s = (name s ++ " = {}")%string).
Proof.
  split.
  - unfold print. rewrite print_from_concat.
    destruct (String.eqb (name s) ""); reflexivity.
  - intros He Hn. unfold print. rewrite He.
    apply String.eqb_neq in Hn. rewrite Hn. simpl.
    rewrite append_assoc_r. reflexivity.
Qed.

End PrintFormat.

(** ** Further properties of DataSetCollection *)

Section CollectionLookup.

Context {T : Type} `{EqOp T} `{Streamable T}.

(** The first position of a name in a deque. *)
Lemma first_named (l : list (DataSet T)) (n : string) :
  In n (map getName l) ->
  exists j s,
    nth_error l j = Some s /\ getName s = n
    /\ forall j' s', j' < j -> nth_error l j' = Some s' -> getName s' <> n.
Proof.
  induction l as [|a l IH]; simpl; [contradiction|]. intros Hin.
  destruct (string_dec (getName a) n) as [Ha | Ha].
  - exists 0, a. repeat split; auto. intros j' s' Hj. lia.
  - destruct Hin as [Hin | Hin]; [contradiction|].
    destruct (IH Hin) as (j & s & Hnth & Hname & Hfirst).
    exists (S j), s. repeat split; auto.
    intros [|j'] s' Hj Hs'; simpl in Hs'.
    + injection Hs' as <-. exact Ha.
    + apply (Hfirst j' s'); [lia | exact Hs'].
Qed.

Lemma findIndex_from_at (i : nat) (l : list (DataSet T)) (n : string)
    (j : nat) (s : DataSet T) :
  (Z.of_nat (i + j) < 2 ^ 31)%Z ->
  nth_error l j = Some s -> getName s = n ->
  (forall j' s', j' < j -> nth_error l j' = Some s' -> getName s' <> n) ->
  findIndex_from i l n = Z.of_nat (i + j).
Proof.
  revert i j. induction l as [|a l IH]; intros i j Hfit Hnth Hname Hfirst.
  - destruct j; discriminate Hnth.
  - destruct j as [|j]; simpl in *.
    + injection Hnth as ->. apply String.eqb_eq in Hname. rewrite Hname.
      rewrite Nat.add_0_r in *. apply static_cast_int_small. lia.
    + assert (Ha : getName a <> n) by (apply (Hfirst 0 a); [lia | reflexivity]).
      apply String.eqb_neq in Ha. rewrite Ha.
      rewrite (IH (S i) j); [f_equal; lia | lia | exact Hnth | exact Hname |].
      intros j' s' Hj Hs'. apply (Hfirst (S j') s'); [lia | exact Hs'].
Qed.

(** [getSet] returns the first set of the deque that carries the name. *)
Lemma getSet_at (w : World T) (n : string) (j : nat) (s : DataSet T) :
  (Z.of_nat j < 2 ^ 31)%Z ->
  nth_error (sets w) j = Some s -> getName s = n ->
  (forall j' s', j' < j -> nth_error (sets w) j' = Some s' -> getName s' <> n) ->
  findIndexByName w n = Z.of_nat j /\ getSet n w = (Return s, w).
Proof.
  intros Hfit Hnth Hname Hfirst.
  assert (Hi : findIndexByName w n = Z.of_nat j)
    by (apply (findIndex_from_at 0 (sets w) n j s); assumption).
  split; [exact Hi|]. unfold getSet. rewrite Hi.
  destruct (Z.eqb_spec (Z.of_nat j) (-1)); [lia|].
  rewrite deque_at_nat, Hnth. reflexivity.
Qed.

Lemma nth_error_fits (w : World T) (j : nat) (s : DataSet T) :
  indices_fit_int w -> nth_error (sets w) j = Some s -> (Z.of_nat j < 2 ^ 31)%Z.
Proof.
  unfold indices_fit_int. intros Hfit Hnth.
  assert (j < List.length (sets w)) by (apply nth_error_Some; congruence). lia.
Qed.

Lemma replace_nth_length (l : list (DataSet T)) (k : nat) (s : DataSet T) :
  List.length (replace_nth l k s) = List.length l.
Proof.
  revert k. induction l as [|a l IH]; intros [|k]; simpl; auto.
Qed.

Lemma nth_error_replace_nth_same (l : list (DataSet T)) (k : nat) (s s0 : DataSet T) :
  nth_error l k = Some s0 -> nth_error (replace_nth l k s) k = Some s.
Proof.
  revert k. induction l as [|a l IH]; intros [|k] Hk; simpl in *;
    try discriminate; auto.
Qed.

Lemma nth_error_replace_nth_other (l : list (DataSet T)) (k j : nat) (s : DataSet T) :
  j <> k -> nth_error (replace_nth l k s) j = nth_error l j.
Proof.
  revert k j. induction l as [|a l IH]; intros [|k] [|j] Hjk; simpl;
    try reflexivity; try contradiction.
  apply IH. lia.
Qed.

Lemma names_replace_nth (l : list (DataSet T)) (k : nat) (s s0 : DataSet T) :
  nth_error l k = Some s0 -> getName s0 = getName s ->
  map getName (replace_nth l k s) = map getName l.
Proof.
  revert k. induction l as [|a l IH]; intros [|k] Hk Hname; simpl in *;
    try discriminate.
  - injection Hk as ->. rewrite Hname. reflexivity.
  - f_equal. apply IH; assumption.
Qed.

Lemma In_replace_nth (l : list (DataSet T)) (k : nat) (s x : DataSet T) :
  In x (replace_nth l k s) -> x = s \/ In x l.
Proof.
  revert k. induction l as [|a l IH]; intros [|k]; simpl; try tauto.
  - intros [<- | Hx]; auto.
  - intros [<- | Hx]; auto. destruct (IH k Hx); auto.
Qed.

(** Lookup of a name is not affected when a set of another name is replaced
    by a set of another name. *)
Lemma getSet_replace_other (w w' : World T) (n : string) (k : nat) (s0 s2 : DataSet T) :
  indices_fit_int w ->
  sets w' = replace_nth (sets w) k s2 ->
  nth_error (sets w) k = Some s0 -> getName s0 <> n -> getName s2 <> n ->
  fst (getSet n w') = fst (getSet n w).
Proof.
  intros Hfit Hsets Hk Hs0 Hs2.
  destruct (registered_dec w n) as [Hn | Hn].
  - destruct (first_named (sets w) n Hn) as (j & s & Hnth & Hname & Hfirst).
    assert (Hj : (Z.of_nat j < 2 ^ 31)%Z) by (apply (nth_error_fits w j s); assumption).
    assert (Hjk : j <> k) by (intros ->; congruence).
    destruct (getSet_at w n j s Hj Hnth Hname Hfirst) as [_ ->].
    destruct (getSet_at w' n j s Hj) as [_ ->]; try reflexivity; try assumption.
    + rewrite Hsets, nth_error_replace_nth_other by exact Hjk. exact Hnth.
    + intros j' s' Hj' Hs'. rewrite Hsets in Hs'.
      destruct (Nat.eq_dec j' k) as [-> | Hne].
      * rewrite (nth_error_replace_nth_same _ _ _ _ Hk) in Hs'. congruence.
      * rewrite nth_error_replace_nth_other in Hs' by exact Hne.
        apply (Hfirst j' s'); assumption.
  - assert (Hn' : ~ registered w' n).
    { unfold registered, getSetNames. rewrite Hsets. intros Hin.
      apply in_map_iff in Hin as (x & Hx & Hin).
      apply In_replace_nth in Hin as [-> | Hin]; [contradiction|].
      apply Hn. unfold registered, getSetNames. rewrite <- Hx.
      apply in_map. exact Hin. }
    rewrite (getSet_missing w n (findIndexByName_missing w n Hn)).
    rewrite (getSet_missing w' n (findIndexByName_missing w' n Hn')). reflexivity.
Qed.

(** Lookup of a name is not affected when a set of another name is appended. *)
Lemma getSet_append_other (w w' : World T) (n : string) (s2 : DataSet T) :
  indices_fit_int w ->
  sets w' = sets w ++ [s2] -> getName s2 <> n ->
  fst (getSet n w') = fst (getSet n w).
Proof.
  intros Hfit Hsets Hs2.
  destruct (registered_dec w n) as [Hn | Hn].
  - destruct (first_named (sets w) n Hn) as (j & s & Hnth & Hname & Hfirst).
    assert (Hj : (Z.of_nat j < 2 ^ 31)%Z) by (apply (nth_error_fits w j s); assumption).
    assert (Hlt : j < List.length (sets w)) by (apply nth_error_Some; congruence).
    destruct (getSet_at w n j s Hj Hnth Hname Hfirst) as [_ ->].
    destruct (getSet_at w' n j s Hj) as [_ ->]; try reflexivity; try assumption.
    + rewrite Hsets, nth_error_app1 by exact Hlt. exact Hnth.
    + intros j' s' Hj' Hs'. rewrite Hsets, nth_error_app1 in Hs' by lia.
      apply (Hfirst j' s'); assumption.
  - assert (Hn' : ~ registered w' n).
    { unfold registered, getSetNames. rewrite Hsets, map_app. intros Hin.
      apply in_app_or in Hin as [Hin | [Hin | []]]; [|contradiction].
      apply Hn. exact Hin. }
    rewrite (getSet_missing w n (findIndexByName_missing w n Hn)).
    rewrite (getSet_missing w' n (findIndexByName_missing w' n Hn')). reflexivity.
Qed.

Lemma addSet_fresh (w : World T) (s : DataSet T) :
  ~ registered w (getName s) ->
  addSet s w
  = (Return tt, {| sets := sets w ++ [s]; cout := cout w; cerr := cerr w |}).
Proof.
  intros Hn. unfold addSet. rewrite (findIndexByName_missing w _ Hn). reflexivity.
Qed.

Lemma addSet_replace (w : World T) (s : DataSet T) :
  indices_fit_int w -> registered w (getName s) ->
  exists k s0,
    nth_error (sets w) k = Some s0 /\ getName s0 = getName s
    /\ (forall j' s', j' < k -> nth_error (sets w) j' = Some s' ->
                      getName s' <> getName s)
    /\ addSet s w
       = (Return tt,
          {| sets := replace_nth (sets w) k s; cout := cout w; cerr := cerr w |}).
Proof.
  intros Hfit Hn.
  destruct (first_named (sets w) _ Hn) as (k & s0 & Hnth & Hname & Hfirst).
  exists k, s0. repeat split; try assumption.
  assert (Hk : (Z.of_nat k < 2 ^ 31)%Z) by (apply (nth_error_fits w k s0); assumption).
  destruct (getSet_at w _ k s0 Hk Hnth Hname Hfirst) as [Hi _].
  unfold addSet. rewrite Hi.
  destruct (Z.eqb_spec (Z.of_nat k) (-1)); [lia|]. simpl.
  unfold deque_update, bind, get_sets, put_sets. simpl.
  rewrite deque_at_nat, Hnth, Nat2Z.id. reflexivity.
Qed.

Lemma insertInto_replace (w : World T) (n : string) (v : T) :
  indices_fit_int w -> registered w n ->
  exists k s,
    nth_error (sets w) k = Some s /\ getName s = n
    /\ (forall j' s', j' < k -> nth_error (sets w) j' = Some s' -> getName s' <> n)
    /\ getSet n w = (Return s, w)
    /\ insertInto n v w
       = (Return tt,
          {| sets := replace_nth (sets w) k (insert s v);
             cout := cout w; cerr := cerr w |}).
Proof.
  intros Hfit Hn.
  destruct (first_named (sets w) _ Hn) as (k & s & Hnth & Hname & Hfirst).
  exists k, s. repeat split; try assumption.
  - apply (getSet_at w n k s); try assumption. apply (nth_error_fits w k s); assumption.
  - assert (Hk : (Z.of_nat k < 2 ^ 31)%Z) by (apply (nth_error_fits w k s); assumption).
    destruct (getSet_at w _ k s Hk Hnth Hname Hfirst) as [Hi _].
    unfold insertInto. rewrite Hi.
    destruct (Z.eqb_spec (Z.of_nat k) (-1)); [lia|].
    unfold deque_update, bind, get_sets, put_sets. simpl.
    rewrite deque_at_nat, Hnth, Nat2Z.id. reflexivity.
Qed.

End CollectionLookup.

Section CollectionFurther.

Context {T : Type} `{EqOp T} `{Streamable T}.

(** X17. In a collection of at most 2^31 sets, [hasSet] is true exactly for the
    registered names, and [findIndexByName] is -1 exactly for the others;
    for a registered name it is the position of the first set of the deque
    that carries the name. *)
Theorem lookup_by_name (w : World T) (n : string) (Hfit : indices_fit_int w) :
  (hasSet w n = true <-> registered w n)
  /\ (findIndexByName w n = (-1)%Z <-> ~ registered w n)
  /\ (registered w n ->
      exists k s,
        findIndexByName w n = Z.of_nat k
        /\ nth_error (sets w) k = Some s /\ getName s = n
        /\ forall j s', j < k -> nth_error (sets w) j = Some s' -> getName s' <> n).
Proof.
  split; [apply hasSet_registered; exact Hfit|]. split.
  - split; [|apply findIndexByName_missing].
    intros Hi Hn. destruct (findIndexByName_found w n Hfit Hn) as (k & _ & Hk & _).
    lia.
  - intros Hn.
    destruct (first_named (sets w) n Hn) as (k & s & Hnth & Hname & Hfirst).
    exists k, s. repeat split; try assumption.
    apply (getSet_at w n k s); try assumption.
    apply (nth_error_fits w k s); assumption.
Qed.

(** X18. While no two sets of the deque carry the same name, [getSet] by the name
    of a stored set returns that very set, and leaves the collection and the
    streams as they were. *)
Theorem getSet_unique_name (w : World T) (s : DataSet T)
    (Hfit : indices_fit_int w) (Huniq : NoDup (getSetNames w))
    (Hs : In s (sets w)) :
  getSet (getName s) w = (Return s, w).
Proof.
  assert (Hn : registered w (getName s)) by (apply in_map; exact Hs).
  destruct (first_named (sets w) _ Hn) as (k & s1 & Hnth & Hname & Hfirst).
  apply In_nth_error in Hs as [i Hi].
  assert (Hik : i = k).
  { apply (proj1 (NoDup_nth_error (getSetNames w)) Huniq).
    - unfold getSetNames. rewrite length_map. apply nth_error_Some. congruence.
    - unfold getSetNames. rewrite !nth_error_map, Hi, Hnth. simpl. congruence. }
  subst i. assert (s1 = s) by congruence. subst s1.
  apply (getSet_at w _ k s); try assumption.
  apply (nth_error_fits w k s); assumption.
Qed.

(** X19. [addSet] keeps the names in registration order: a set with a new name
    goes to the end of the deque, a set with a registered name takes the
    place of the first set that carries the name, and the list of names is
    as before. The call returns, the set is stored, the number of sets grows
    by one or not at all, and nothing is written. *)
Theorem addSet_registration_order (w : World T) (s : DataSet T)
    (Hfit : indices_fit_int w) :
  let w' := snd (addSet s w) in
  fst (addSet s w) = Return tt
  /\ getSetNames w'
     = (if hasSet w (getName s) then getSetNames w
        else getSetNames w ++ [getName s])
  /\ List.length (sets w')
     = (if hasSet w (getName s) then List.length (sets w)
        else S (List.length (sets w)))
  /\ In s (sets w')
  /\ cout w' = cout w /\ cerr w' = cerr w.
Proof.
  destruct (registered_dec w (getName s)) as [Hn | Hn].
  - rewrite (proj2 (hasSet_registered w _ Hfit) Hn).
    destruct (addSet_replace w s Hfit Hn) as (k & s0 & Hnth & Hname & _ & ->).
    simpl. repeat split.
    + apply (names_replace_nth _ _ _ s0); assumption.
    + apply replace_nth_length.
    + apply (nth_error_In _ k). apply (nth_error_replace_nth_same _ _ _ s0). exact Hnth.
  - assert (Hh : hasSet w (getName s) = false).
    { destruct (hasSet w (getName s)) eqn:E; [|reflexivity].
      apply (hasSet_registered w _ Hfit) in E. contradiction. }
    rewrite Hh, (addSet_fresh w s Hn). simpl. repeat split.
    + unfold getSetNames. simpl. rewrite map_app. reflexivity.
    + rewrite length_app. simpl. lia.
    + apply in_or_app. right. left. reflexivity.
Qed.

(** X20. At most one set per name: if no two sets of the deque carry the same
    name, this is still so after [addSet] and after [insertInto], whatever
    their arguments. *)
Theorem names_stay_unique (w : World T) (s : DataSet T) (n : string) (v : T)
    (Hfit : indices_fit_int w) (Huniq : NoDup (getSetNames w)) :
  NoDup (getSetNames (snd (addSet s w)))
  /\ NoDup (getSetNames (snd (insertInto n v w))).
Proof.
  split.
  - destruct (registered_dec w (getName s)) as [Hn | Hn].
    + destruct (addSet_replace w s Hfit Hn) as (k & s0 & Hnth & Hname & _ & ->).
      unfold getSetNames. simpl.
      rewrite (names_replace_nth _ _ _ s0) by assumption. exact Huniq.
    + rewrite (addSet_fresh w s Hn). unfold getSetNames. simpl.
      rewrite map_app. simpl. apply NoDup_app; [exact Huniq| |].
      * apply NoDup_cons; [intros [] | apply NoDup_nil].
      * intros x Hx [<- | []]. apply Hn. exact Hx.
  - destruct (registered_dec w n) as [Hn | Hn].
    + destruct (insertInto_replace w n v Hfit Hn) as (k & s0 & Hnth & Hname & _ & _ & ->).
      unfold getSetNames. simpl.
      rewrite (names_replace_nth _ _ _ s0); [exact Huniq | exact Hnth |].
      unfold getName. rewrite insert_name. reflexivity.
    + unfold insertInto. rewrite (findIndexByName_missing w n Hn). exact Huniq.
Qed.

(** X21. What [addSet] stores, [getSet] returns: in a collection of fewer than
    2^31 sets, after [addSet(s)] the lookup of [s]'s name returns [s], with
    the elements [s] has, and replaces whatever the name referred to before;
    the lookup of every other name answers as it did before. *)
Theorem getSet_after_addSet (w : World T) (s : DataSet T)
    (Hroom : (Z.of_nat (List.length (sets w)) < 2 ^ 31)%Z) :
  let w' := snd (addSet s w) in
  getSet (getName s) w' = (Return s, w')
  /\ forall n, n <> getName s -> fst (getSet n w') = fst (getSet n w).
Proof.
  assert (Hfit : indices_fit_int w) by (unfold indices_fit_int; lia).
  destruct (registered_dec w (getName s)) as [Hn | Hn].
  - destruct (addSet_replace w s Hfit Hn) as (k & s0 & Hnth & Hname & Hfirst & ->).
    simpl. split.
    + apply (getSet_at _ _ k s); simpl.
      * apply (nth_error_fits w k s0); assumption.
      * apply (nth_error_replace_nth_same _ _ _ s0). exact Hnth.
      * reflexivity.
      * intros j' s' Hj Hs'. rewrite nth_error_replace_nth_other in Hs' by lia.
        apply (Hfirst j' s'); assumption.
    + intros n Hne. apply (getSet_replace_other w _ n k s0 s); auto; congruence.
  - rewrite (addSet_fresh w s Hn). simpl. split.
    + apply (getSet_at _ _ (List.length (sets w)) s); simpl.
      * exact Hroom.
      * rewrite nth_error_app2, Nat.sub_diag by lia. reflexivity.
      * reflexivity.
      * intros j' s' Hj Hs'. rewrite nth_error_app1 in Hs' by exact Hj.
        intros Hname. apply Hn. unfold registered, getSetNames. rewrite <- Hname.
        apply in_map. apply (nth_error_In _ j'). exact Hs'.
    + intros n Hne. apply (getSet_append_other w _ n s); auto.
Qed.

(** X22. [insertInto]: for a name that is not registered the call throws and the
    collection is as before, no set is created; for a registered name it
    returns, the lookup of the name then gives the set found before with the
    value inserted, the list of names and the streams are as before, and the
    lookup of every other name answers as it did. *)
Theorem insertInto_contract (w : World T) (n : string) (v : T)
    (Hfit : indices_fit_int w) :
  (~ registered w n -> insertInto n v w = (Throw (NotFound n), w))
  /\ (registered w n ->
      let w' := snd (insertInto n v w) in
      exists s,
        getSet n w = (Return s, w)
        /\ fst (insertInto n v w) = Return tt
        /\ getSet n w' = (Return (insert s v), w')
        /\ getSetNames w' = getSetNames w
        /\ (forall m, m <> n -> fst (getSet m w') = fst (getSet m w))
        /\ cout w' = cout w /\ cerr w' = cerr w).
Proof.
  split.
  - intros Hn. unfold insertInto. rewrite (findIndexByName_missing w n Hn). reflexivity.
  - intros Hn.
    destruct (insertInto_replace w n v Hfit Hn)
      as (k & s & Hnth & Hname & Hfirst & Hget & ->).
    simpl. exists s. repeat split; try assumption.
    + apply (getSet_at _ _ k (insert s v)); simpl.
      * apply (nth_error_fits w k s); assumption.
      * apply (nth_error_replace_nth_same _ _ _ s). exact Hnth.
      * unfold getName. rewrite insert_name. exact Hname.
      * intros j' s' Hj Hs'. rewrite nth_error_replace_nth_other in Hs' by lia.
        apply (Hfirst j' s'); assumption.
    + apply (names_replace_nth _ _ _ s); [exact Hnth|].
      unfold getName. rewrite insert_name. reflexivity.
    + intros m Hm. apply (getSet_replace_other w _ m k s (insert s v)); auto.
      * congruence.
      * unfold getName. rewrite insert_name. fold (getName s). congruence.
Qed.

(** X23. [operate] on two registered names, in a collection of at most 2^31
    sets: each keyword gives the elements of the matching operation of
    DataSet on the two sets [getSet] finds, under the name made of the two
    requested names and the keyword in parentheses, in place of the name the
    operation derives; the collection and the streams are as before. *)
Theorem operate_result (w : World T) (a b : string)
    (Hfit : indices_fit_int w)
    (Ha : registered w a) (Hb : registered w b) :
  exists sa sb,
    getSet a w = (Return sa, w) /\ getSet b w = (Return sb, w)
    /\ operate a "union" b w
       = (Return (setName (unionWith sa sb) ("(" ++ a ++ " union " ++ b ++ ")")), w)
    /\ operate a "intersection" b w
       = (Return (setName (intersectionWith sa sb)
                    ("(" ++ a ++ " intersection " ++ b ++ ")")), w)
    /\ operate a "difference" b w
       = (Return (setName (differenceWith sa sb)
                    ("(" ++ a ++ " difference " ++ b ++ ")")), w)
    /\ operate a "symmetric_difference" b w
       = (Return (setName (symmetricDifferenceWith sa sb)
                    ("(" ++ a ++ " symmetric_difference " ++ b ++ ")")), w).
Proof.
  destruct (getSet_found w a Hfit Ha) as (sa & Hsa & _).
  destruct (getSet_found w b Hfit Hb) as (sb & Hsb & _).
  exists sa, sb. unfold operate, bind. rewrite Hsa, Hsb. repeat split.
Qed.

(** X24. [printSet] of a registered name returns after writing to [std::cout]
    the text [print] gives for the set [getSet] finds, and a line end; the
    deque and [std::cerr] are as before. *)
Theorem printSet_registered (w : World T) (n : string)
    (Hfit : indices_fit_int w) (Hn : registered w n) :
  exists s,
    getSet n w = (Return s, w)
    /\ printSet n w
       = (Return tt,
          {| sets := sets w;
             cout := ((cout w ++ print s) ++ endl)%string;
             cerr := cerr w |}).
Proof.
  destruct (first_named (sets w) n Hn) as (k & s & Hnth & Hname & Hfirst).
  assert (Hk : (Z.of_nat k < 2 ^ 31)%Z) by (apply (nth_error_fits w k s); assumption).
  destruct (getSet_at w n k s Hk Hnth Hname Hfirst) as [Hi Hget].
  exists s. split; [exact Hget|].
  unfold printSet. rewrite Hi.
  destruct (Z.eqb_spec (Z.of_nat k) (-1)); [lia|].
  rewrite deque_at_nat, Hnth. reflexivity.
Qed.

End CollectionFurther.

Section CollectionInvariant.

Context {T : Type} `{EqLaws T} `{Streamable T}.

(** X25. Every set of the collection stays duplicate-free: if every stored set is
    duplicate-free, this is still so after [insertInto], whatever its
    arguments, and after [addSet] of a duplicate-free set. *)
Theorem collection_sets_duplicate_free (w : World T) (s : DataSet T)
    (n : string) (v : T)
    (Hfit : indices_fit_int w)
    (Hall : forall x, In x (sets w) -> no_two_equal (elements x))
    (Hs : no_two_equal (elements s)) :
  (forall x, In x (sets (snd (addSet s w))) -> no_two_equal (elements x))
  /\ (forall x, In x (sets (snd (insertInto n v w))) -> no_two_equal (elements x)).
Proof.
  split.
  - destruct (registered_dec w (getName s)) as [Hn | Hn].
    + destruct (addSet_replace w s Hfit Hn) as (k & s0 & _ & _ & _ & ->). simpl.
      intros x Hx. apply In_replace_nth in Hx as [-> | Hx]; auto.
    + rewrite (addSet_fresh w s Hn). simpl.
      intros x Hx. apply in_app_or in Hx as [Hx | [<- | []]]; auto.
  - destruct (registered_dec w n) as [Hn | Hn].
    + destruct (insertInto_replace w n v Hfit Hn) as (k & s0 & Hnth & _ & _ & _ & ->).
      simpl. intros x Hx. apply In_replace_nth in Hx as [-> | Hx]; auto.
      apply no_two_equal_insert. apply Hall. apply (nth_error_In _ k). exact Hnth.
    + unfold insertInto. rewrite (findIndexByName_missing w n Hn). exact Hall.
Qed.

End CollectionInvariant.

(** ** Properties of the driver *)

Section TrimFacts.

Local Open Scope string_scope.

Lemma string_length_app (a b : string) :
  String.length (a ++ b) = String.length a + String.length b.
Proof. induction a as [|c a IH]; simpl; [reflexivity | rewrite IH; reflexivity]. Qed.

Lemma all_in_app (a b chars : string) :
  all_in (a ++ b) chars = all_in a chars && all_in b chars.
Proof.
  induction a as [|c a IH]; simpl; [reflexivity|].
  rewrite IH. apply andb_assoc.
Qed.

Lemma find_first_all (pos : nat) (s chars : string) :
  all_in s chars = true -> find_first_not_of_from pos s chars = npos.
Proof.
  revert pos. induction s as [|c s IH]; intros pos Hs; simpl in *; [reflexivity|].
  apply andb_true_iff in Hs as [-> Hs]. apply IH. exact Hs.
Qed.

Lemma find_first_app (pos : nat) (lead : string) (c : ascii) (rest chars : string) :
  all_in lead chars = true -> char_in c chars = false ->
  find_first_not_of_from pos (lead ++ String c rest) chars
  = Z.of_nat (pos + String.length lead).
Proof.
  revert pos. induction lead as [|a lead IH]; intros pos Hlead Hc; simpl in *.
  - rewrite Hc, Nat.add_0_r. reflexivity.
  - apply andb_true_iff in Hlead as [-> Hlead].
    rewrite IH by assumption. f_equal. lia.
Qed.

Lemma find_last_all (pos : nat) (s chars : string) (found : Z) :
  all_in s chars = true -> find_last_not_of_from pos s chars found = found.
Proof.
  revert pos. induction s as [|c s IH]; intros pos Hs; simpl in *; [reflexivity|].
  apply andb_true_iff in Hs as [-> Hs]. apply IH. exact Hs.
Qed.

Lemma find_last_app (pos : nat) (mid : string) (d : ascii) (trail chars : string)
    (found : Z) :
  char_in d chars = false -> all_in trail chars = true ->
  find_last_not_of_from pos (mid ++ String d trail) chars found
  = Z.of_nat (pos + String.length mid).
Proof.
  revert pos found. induction mid as [|a mid IH]; intros pos found Hd Htrail; simpl.
  - rewrite Hd, Nat.add_0_r. apply find_last_all. exact Htrail.
  - rewrite IH by assumption. f_equal. lia.
Qed.

(** A string consists of characters of [chars] only, or has a first
    character outside [chars]. *)
Lemma first_outside (s chars : string) :
  all_in s chars = true
  \/ exists lead c rest,
       s = lead ++ String c rest
       /\ all_in lead chars = true /\ char_in c chars = false.
Proof.
  induction s as [|a s IH]; simpl; [left; reflexivity|].
  destruct (char_in a chars) eqn:Ea.
  - destruct IH as [-> | (lead & c & rest & -> & Hlead & Hc)]; [left; reflexivity|].
    right. exists (String a lead), c, rest. simpl. rewrite Ea, Hlead. auto.
  - right. exists "", a, s. auto.
Qed.

(** A string that is not made of characters of [chars] only has a last
    character outside [chars]. *)
Lemma last_outside (s chars : string) :
  all_in s chars = false ->
  exists mid d trail,
    s = mid ++ String d trail
    /\ char_in d chars = false /\ all_in trail chars = true.
Proof.
  induction s as [|a s IH]; simpl; [discriminate|]. intros Hs.
  destruct (all_in s chars) eqn:Hall.
  - rewrite andb_true_r in Hs. exists "", a, s. auto.
  - destruct (IH eq_refl) as (mid & d & trail & -> & Hd & Htrail).
    exists (String a mid), d, trail. auto.
Qed.

Lemma head_of_app (c : ascii) (rest mid : string) (d : ascii) (trail : string) :
  String c rest = mid ++ String d trail ->
  exists body, mid ++ String d "" = String c body.
Proof.
  destruct mid as [|a mid]; simpl; intros Heq; injection Heq as -> _.
  - exists "". reflexivity.
  - exists (mid ++ String d ""). reflexivity.
Qed.

Lemma substring_middle (lead r trail : string) :
  String.substring (String.length lead) (String.length r) (lead ++ r ++ trail) = r.
Proof.
  induction lead as [|a lead IH]; simpl; [|exact IH].
  induction r as [|b r IHr]; simpl.
  - destruct trail; reflexivity.
  - rewrite IHr. reflexivity.
Qed.

(** [trim] on a string laid out as blanks, a body that starts and ends
    outside the blanks, and blanks. *)
Lemma trim_layout (lead mid : string) (d : ascii) (trail : string)
    (c : ascii) (body : string) :
  mid ++ String d "" = String c body ->
  char_in c blanks = false -> char_in d blanks = false ->
  all_in lead blanks = true -> all_in trail blanks = true ->
  (Z.of_nat (String.length (lead ++ (mid ++ String d "") ++ trail)) < npos)%Z ->
  trim (lead ++ (mid ++ String d "") ++ trail) = Some (mid ++ String d "").
Proof.
  intros Hbody Hc Hd Hlead Htrail Hlen.
  set (str := lead ++ (mid ++ String d "") ++ trail) in *.
  assert (E1 : str = lead ++ String c (body ++ trail))
    by (unfold str; rewrite Hbody; reflexivity).
  assert (E2 : str = (lead ++ mid) ++ String d trail)
    by (unfold str; rewrite !append_assoc_r; reflexivity).
  assert (Hsize : String.length str
                  = String.length lead + (String.length mid + 1)
                    + String.length trail).
  { unfold str. rewrite !string_length_app. simpl. lia. }
  assert (Hfirst : find_first_not_of str blanks = Z.of_nat (String.length lead)).
  { unfold find_first_not_of. rewrite E1. apply find_first_app; assumption. }
  assert (Hlast : find_last_not_of str blanks
                  = Z.of_nat (String.length lead + String.length mid)).
  { unfold find_last_not_of. rewrite E2, find_last_app by assumption.
    rewrite string_length_app. reflexivity. }
  unfold trim. rewrite Hfirst, Hlast. unfold npos in *.
  destruct (Z.eqb_spec (Z.of_nat (String.length lead)) (2 ^ 64 - 1)); [lia|].
  unfold substr.
  destruct (Z.ltb_spec (Z.of_nat (String.length str)) (Z.of_nat (String.length lead)));
    [lia|].
  f_equal.
  replace ((Z.of_nat (String.length lead + String.length mid)
            - Z.of_nat (String.length lead) + 1) mod 2 ^ 64)%Z
    with (Z.of_nat (String.length (mid ++ String d "")))
    by (rewrite string_length_app; simpl; rewrite Z.mod_small; lia).
  rewrite !Nat2Z.id. unfold str. apply substring_middle.
Qed.

(** The two cases of [trim]. *)
Lemma trim_cases (str : string) :
  (Z.of_nat (String.length str) < npos)%Z ->
  (all_in str blanks = true /\ trim str = Some "")
  \/ (exists lead mid d trail c body,
        str = lead ++ (mid ++ String d "") ++ trail
        /\ mid ++ String d "" = String c body
        /\ char_in c blanks = false /\ char_in d blanks = false
        /\ all_in lead blanks = true /\ all_in trail blanks = true
        /\ trim str = Some (mid ++ String d "")).
Proof.
  intros Hlen.
  destruct (first_outside str blanks) as [Hall | (lead & c & rest & Hstr & Hlead & Hc)].
  - left. split; [exact Hall|]. unfold trim, find_first_not_of.
    rewrite find_first_all by exact Hall. reflexivity.
  - right.
    assert (Hnot : all_in (String c rest) blanks = false)
      by (change (char_in c blanks && all_in rest blanks = false);
          rewrite Hc; reflexivity).
    destruct (last_outside _ _ Hnot) as (mid & d & trail & Hsplit & Hd & Htrail).
    destruct (head_of_app _ _ _ _ _ Hsplit) as [body Hbody].
    assert (Hshape : str = lead ++ (mid ++ String d "") ++ trail).
    { rewrite Hstr, Hsplit, !append_assoc_r. reflexivity. }
    exists lead, mid, d, trail, c, body. repeat split; try assumption.
    rewrite Hshape. apply (trim_layout lead mid d trail c body); try assumption.
    rewrite <- Hshape. exact Hlen.
Qed.

(** X26. [trim] returns, without throwing, the text between the first and the
    last character that is not a space, a tab, a carriage return or a line
    feed: the input is the result between two runs of such characters, and
    the result is empty, when the input has no other character, or starts
    and ends with another character. *)
Theorem trim_contract (str : string)
    (Hlen : (Z.of_nat (String.length str) < npos)%Z) :
  exists lead r trail,
    trim str = Some r
    /\ str = lead ++ r ++ trail
    /\ all_in lead blanks = true /\ all_in trail blanks = true
    /\ (r = "" <-> all_in str blanks = true)
    /\ (r <> "" ->
        exists c body mid d,
          r = String c body /\ r = mid ++ String d ""
          /\ char_in c blanks = false /\ char_in d blanks = false).
Proof.
  destruct (trim_cases str Hlen)
    as [[Hall Htrim]
       | (lead & mid & d & trail & c & body & Hstr & Hbody & Hc & Hd & Hlead & Htrail & Htrim)].
  - exists str, "", "". repeat split; auto.
    + rewrite append_empty_r. reflexivity.
    + intros Hne. contradiction.
  - exists lead, (mid ++ String d ""), trail. repeat split; auto.
    + rewrite Hbody. discriminate.
    + intros Hall. rewrite Hstr, !all_in_app in Hall.
      change (all_in (String d "") blanks) with (char_in d blanks && true) in Hall.
      rewrite Hd in Hall.
      destruct (all_in lead blanks), (all_in mid blanks), (all_in trail blanks);
        discriminate Hall.
    + intros _. exists c, body, mid, d. auto.
Qed.

(** X27. [trim] is idempotent: what it returns it returns unchanged. *)
Theorem trim_idempotent (str r : string)
    (Hlen : (Z.of_nat (String.length str) < npos)%Z)
    (Htrim : trim str = Some r) :
  trim r = Some r.
Proof.
  destruct (trim_cases str Hlen)
    as [[Hall Hempty]
       | (lead & mid & d & trail & c & body & Hstr & Hbody & Hc & Hd & Hlead & Htrail & Hres)].
  - rewrite Hempty in Htrim. injection Htrim as <-. reflexivity.
  - rewrite Hres in Htrim. injection Htrim as <-.
    assert (Hr : mid ++ String d "" = "" ++ (mid ++ String d "") ++ "")
      by (simpl; rewrite append_empty_r; reflexivity).
    rewrite Hr at 1. apply (trim_layout "" mid d "" c body); auto.
    rewrite <- Hr. rewrite Hstr, !string_length_app in Hlen.
    rewrite string_length_app. lia.
Qed.

End TrimFacts.

Section QueryFacts.

Lemma fits_same_sets {T : Type} (w w' : World T) :
  sets w' = sets w -> indices_fit_int w -> indices_fit_int w'.
Proof. unfold indices_fit_int. intros ->. auto. Qed.

Lemma completes_keeps {T A : Type} (m : M T A) (w : World T) :
  completes m w -> keeps_sets m w.
Proof.
  intros (a & w' & Hm & Hs). exists (Return a), w'. repeat split; auto. discriminate.
Qed.

Lemma keeps_bind {T A B : Type} (m : M T A) (k : A -> M T B) (w : World T) :
  keeps_sets m w ->
  (forall a w', sets w' = sets w -> keeps_sets (k a) w') ->
  keeps_sets (bind m k) w.
Proof.
  intros (o & w1 & Hm & Hs & Ho) Hk. unfold keeps_sets, bind. rewrite Hm.
  destruct o as [a | e |].
  - destruct (Hk a w1 Hs) as (o2 & w2 & Hk2 & Hs2 & Ho2).
    exists o2, w2. repeat split; auto. congruence.
  - exists (Throw e), w1. repeat split; auto. discriminate.
  - contradiction.
Qed.

Lemma completes_try_catch {T A : Type} (body : M T A)
    (handler : exception -> M T A) (w : World T) :
  keeps_sets body w ->
  (forall ex w', sets w' = sets w -> completes (handler ex) w') ->
  completes (try_catch body handler) w.
Proof.
  intros (o & w1 & Hm & Hs & Ho) Hh. unfold completes, try_catch. rewrite Hm.
  destruct o as [a | e |].
  - exists a, w1. auto.
  - destruct (Hh e w1 Hs) as (a & w2 & Hh2 & Hs2).
    exists a, w2. split; [exact Hh2 | congruence].
  - contradiction.
Qed.

Lemma completes_write_cout {T : Type} (text : string) (w : World T) :
  completes (write_cout text) w.
Proof. exists tt. eexists. split; reflexivity. Qed.

Lemma completes_write_cerr {T : Type} (text : string) (w : World T) :
  completes (write_cerr text) w.
Proof. exists tt. eexists. split; reflexivity. Qed.

Lemma completes_print_subsets (l : list (DataSet Z)) (w : World Z) :
  completes (print_subsets l) w.
Proof.
  revert w. induction l as [|s l IH]; intros w; simpl.
  - exists tt, w. split; reflexivity.
  - unfold completes, bind. simpl.
    destruct (IH {| sets := sets w;
                    cout := ((cout w ++ print s) ++ endl)%string;
                    cerr := cerr w |}) as (a & w' & Hp & Hs).
    exists a, w'. split; [exact Hp | exact Hs].
Qed.

Context {T : Type} `{EqOp T} `{Streamable T}.

Lemma keeps_getSet (n : string) (w : World T) :
  indices_fit_int w -> keeps_sets (getSet n) w.
Proof.
  intros Hfit. destruct (registered_dec w n) as [Hn | Hn].
  - destruct (getSet_found w n Hfit Hn) as (s & Hs & _).
    exists (Return s), w. repeat split; auto. discriminate.
  - exists (Throw (NotFound n)), w. repeat split; try discriminate.
    apply getSet_missing, findIndexByName_missing, Hn.
Qed.

Lemma keeps_operate (a op b : string) (w : World T) :
  indices_fit_int w -> keeps_sets (operate a op b) w.
Proof.
  intros Hfit.
  destruct (registered_dec w a) as [Ha | Ha].
  2:{ exists (Throw (NotFound a)), w. repeat split; try discriminate.
      apply operate_missing_first, Ha. }
  destruct (registered_dec w b) as [Hb | Hb].
  2:{ exists (Throw (NotFound b)), w. repeat split; try discriminate.
      apply operate_missing_second; assumption. }
  destruct (binary_keyword op) eqn:Hop.
  - destruct (operate_supported w a op b Hfit Ha Hb Hop) as [r Hr].
    exists (Return r), w. repeat split; auto. discriminate.
  - exists (Throw (UnsupportedBinary op)), w. repeat split; try discriminate.
    apply operate_unsupported; assumption.
Qed.

Lemma keeps_operateUnarySet (n op : string) (w : World T) :
  indices_fit_int w -> keeps_sets (operateUnarySet n op) w.
Proof.
  intros Hfit. destruct (registered_dec w n) as [Hn | Hn].
  - destruct (operateUnarySet_found w n op Hfit Hn) as [s Hs].
    eexists. exists w. split; [exact Hs|]. split; [reflexivity|].
    destruct (unary_keyword op); discriminate.
  - exists (Throw (NotFound n)), w. repeat split; try discriminate.
    apply operateUnarySet_missing, Hn.
Qed.

Lemma keeps_cartesianProduct (a b : string) (w : World T) :
  indices_fit_int w -> keeps_sets (cartesianProduct a b) w.
Proof.
  intros Hfit.
  destruct (registered_dec w a) as [Ha | Ha].
  2:{ exists (Throw (NotFound a)), w. repeat split; try discriminate.
      apply cartesianProduct_missing_first, Ha. }
  destruct (registered_dec w b) as [Hb | Hb].
  2:{ exists (Throw (NotFound b)), w. repeat split; try discriminate.
      apply cartesianProduct_missing_second; assumption. }
  destruct (cartesianProduct_found w a b Hfit Ha Hb) as [r Hr].
  exists (Return r), w. repeat split; auto. discriminate.
Qed.

Lemma completes_printSet (n : string) (w : World T) :
  indices_fit_int w -> completes (printSet n) w.
Proof.
  intros Hfit. destruct (registered_dec w n) as [Hn | Hn].
  - destruct (first_named (sets w) n Hn) as (k & s & Hnth & Hname & Hfirst).
    assert (Hk : (Z.of_nat k < 2 ^ 31)%Z) by (apply (nth_error_fits w k s); assumption).
    destruct (getSet_at w n k s Hk Hnth Hname Hfirst) as [Hi _].
    unfold completes, printSet. rewrite Hi.
    destruct (Z.eqb_spec (Z.of_nat k) (-1)); [lia|].
    rewrite deque_at_nat, Hnth. exists tt. eexists. split; reflexivity.
  - unfold completes, printSet. rewrite (findIndexByName_missing w n Hn).
    exists tt. eexists. split; reflexivity.
Qed.

End QueryFacts.

Section QueryTheorems.

Local Open Scope string_scope.

Ltac keeps_step :=
  first
    [ assumption
    | apply keeps_getSet
    | apply keeps_operate
    | apply keeps_operateUnarySet
    | apply keeps_cartesianProduct
    | apply completes_keeps, completes_write_cout
    | apply completes_keeps, completes_print_subsets
    | eapply fits_same_sets; eassumption
    | apply keeps_bind; [|intros ? ? ?] ].

Ltac query_branch :=
  apply completes_try_catch;
  [ repeat keeps_step | intros; apply completes_write_cerr ].

(** X28. One line of the query section never stops the driver and never changes
    the collection: whatever the line, in a collection of at most 2^31 sets
    the body of the query loop returns, every error of the collection being
    caught and reported, and the deque is as before. *)
Theorem run_query_completes (line : string) (w : World Z)
    (Hfit : indices_fit_int w) :
  exists w', run_query line w = (Return tt, w') /\ sets w' = sets w.
Proof.
  assert (Hc : completes (run_query line) w).
  { unfold run_query.
    destruct (extract_word "" line) as [op iss].
    destruct (String.eqb op "print").
    { destruct (extract_word "" iss) as [nameA iss1].
      apply completes_printSet. exact Hfit. }
    destruct (String.eqb op "union" || String.eqb op "intersection"
              || String.eqb op "difference"
              || String.eqb op "symmetric_difference").
    { destruct (extract_word "" iss) as [nameA iss1].
      destruct (extract_word "" iss1) as [nameB iss2]. query_branch. }
    destruct (String.eqb op "issubset").
    { destruct (extract_word "" iss) as [nameA iss1].
      destruct (extract_word "" iss1) as [nameB iss2]. query_branch. }
    destruct (String.eqb op "isequal").
    { destruct (extract_word "" iss) as [nameA iss1].
      destruct (extract_word "" iss1) as [nameB iss2]. query_branch. }
    destruct (String.eqb op "size").
    { destruct (extract_word "" iss) as [nameA iss1]. query_branch. }
    destruct (String.eqb op "powerset").
    { destruct (extract_word "" iss) as [nameA iss1]. query_branch. }
    destruct (String.eqb op "cartesian").
    { destruct (extract_word "" iss) as [nameA iss1].
      destruct (extract_word "" iss1) as [nameB iss2]. query_branch. }
    apply completes_write_cerr. }
  destruct Hc as ([] & w' & Hrun & Hsets). exists w'. auto.
Qed.


Lemma read_word_word (x rest : string) :
  no_space x = true ->
  (rest = "" \/ exists c r, rest = String c r /\ isspace c = true) ->
  read_word (x ++ rest) = (x, rest).
Proof.
  intros Hx Hrest. induction x as [|a x IH]; simpl in *.
  - destruct Hrest as [-> | (c & r & -> & Hc)]; simpl; [reflexivity|].
    rewrite Hc. reflexivity.
  - apply andb_true_iff in Hx as [Ha Hx]. apply negb_true_iff in Ha.
    rewrite Ha, (IH Hx). reflexivity.
Qed.

(** [iss >> x] reads a word that stands first in the stream or follows one
    space, and stops before the white space behind it. *)
Lemma extract_word_word (old x rest : string) :
  is_word x = true ->
  (rest = "" \/ exists c r, rest = String c r /\ isspace c = true) ->
  extract_word old (x ++ rest) = (x, rest)
  /\ extract_word old (" " ++ x ++ rest) = (x, rest).
Proof.
  unfold is_word. intros Hx Hrest. apply andb_true_iff in Hx as [Hne Hx].
  assert (Hskip : skip_ws (x ++ rest) = x ++ rest).
  { destruct x as [|a x]; [discriminate Hne|]. simpl in *.
    apply andb_true_iff in Hx as [Ha _]. apply negb_true_iff in Ha.
    rewrite Ha. reflexivity. }
  assert (Hfirst : extract_word old (x ++ rest) = (x, rest)).
  { unfold extract_word. rewrite Hskip.
    destruct (x ++ rest) eqn:E.
    - destruct x; [discriminate Hne | discriminate E].
    - rewrite <- E. apply read_word_word; assumption. }
  split; [exact Hfirst|].
  unfold extract_word in *. simpl. exact Hfirst.
Qed.

(** X30. A query [op A B] with one of the four binary keywords, two words as
    names and single spaces between them: when A is not registered, or A is
    and B is not, the line reports on [std::cerr] that the set was not found
    and writes nothing to [std::cout]; when both are registered it writes to
    [std::cout] what [print] gives for the result of [operate], and a line
    end. In each case the loop goes on and the collection is as before. *)
Theorem binary_query_contract (op a b : string) (w : World Z)
    (Hfit : indices_fit_int w)
    (Hop : binary_keyword op = true)
    (Ha : is_word a = true) (Hb : is_word b = true) :
  let line := op ++ " " ++ a ++ " " ++ b in
  (~ registered w a ->
   run_query line w
   = (Return tt,
      {| sets := sets w; cout := cout w;
         cerr := cerr w ++ "Error: " ++ what (NotFound a) ++ endl |}))
  /\ (registered w a -> ~ registered w b ->
      run_query line w
      = (Return tt,
         {| sets := sets w; cout := cout w;
            cerr := cerr w ++ "Error: " ++ what (NotFound b) ++ endl |}))
  /\ (registered w a -> registered w b ->
      exists r,
        operate a op b w = (Return r, w)
        /\ run_query line w
           = (Return tt,
              {| sets := sets w; cout := (cout w ++ print r) ++ endl;
                 cerr := cerr w |})).
Proof.
  intros line.
  assert (Hopw : is_word op = true /\ String.eqb op "print" = false).
  { unfold binary_keyword in Hop. rewrite !orb_true_iff in Hop.
    destruct Hop as [[[Hop | Hop] | Hop] | Hop];
      apply String.eqb_eq in Hop; subst op; split; reflexivity. }
  destruct Hopw as [Hopw Hprint].
  assert (Hrun : run_query line w
    = try_catch
        (result <- operate a op b ;;
         write_cout (print result) ;;;
         write_cout endl)%coll
        (fun ex => write_cerr ("Error: " ++ what ex ++ endl)) w).
  { unfold run_query, line.
    destruct (extract_word_word "" op (" " ++ a ++ " " ++ b) Hopw) as [-> _].
    { right. exists " "%char, (a ++ " " ++ b). split; reflexivity. }
    rewrite Hprint.
    change (String.eqb op "union" || String.eqb op "intersection"
            || String.eqb op "difference"
            || String.eqb op "symmetric_difference")
      with (binary_keyword op).
    rewrite Hop.
    destruct (extract_word_word "" a (" " ++ b) Ha) as [_ ->].
    { right. exists " "%char, b. split; reflexivity. }
    assert (Hlast : extract_word "" (" " ++ b) = (b, "")).
    { destruct (extract_word_word "" b "" Hb) as [_ Hl]; [left; reflexivity|].
      rewrite append_empty_r in Hl. exact Hl. }
    rewrite Hlast. reflexivity. }
  rewrite Hrun. unfold try_catch, bind. repeat split.
  - intros Hna. rewrite (operate_missing_first w a op b Hna). reflexivity.
  - intros Hra Hnb. rewrite (operate_missing_second w a op b Hfit Hra Hnb).
    reflexivity.
  - intros Hra Hrb.
    destruct (operate_supported w a op b Hfit Hra Hrb Hop) as [r Hr].
    exists r. rewrite Hr. split; reflexivity.
Qed.

End QueryTheorems.

(** ** Instances of the further properties on the scenario's sets *)

Lemma example_collection_names_unique : NoDup (getSetNames example_collection).
Proof.
  apply NoDup_cons; [intros [Hx | []]; discriminate Hx|].
  apply NoDup_cons; [intros [] | apply NoDup_nil].
Qed.

Lemma example_collection_registers_A : registered example_collection "A".
Proof. left. reflexivity. Qed.

Lemma example_collection_registers_B : registered example_collection "B".
Proof. right. left. reflexivity. Qed.

Lemma example_collection_sets_duplicate_free (x : DataSet Z) :
  In x (sets example_collection) -> no_two_equal (elements x).
Proof.
  intros [<- | [<- | []]];
    [exact example_A_no_two_equal | exact example_B_no_two_equal].
Qed.

Lemma insert_membership_witness :
  contains (insert example_A 7%Z) 2%Z = contains example_A 2%Z || (7%Z == 2%Z)
  /\ elements (insert example_A 7%Z) = elements example_A ++ [7%Z].
Proof.
  pose proof (insert_membership (T := Z) example_A 7%Z) as (Hmember & Hlast & _).
  split; [exact (Hmember 2%Z) | exact (Hlast eq_refl)].
Defined.

Lemma isSubsetOf_inclusion_witness :
  isSubsetOf example_A example_B = true <->
  (forall x, contains example_A x = true -> contains example_B x = true).
Proof. exact (proj1 (isSubsetOf_inclusion (T := Z) example_A example_B)). Defined.

Lemma isEqualTo_same_members_witness :
  isEqualTo example_A example_B = true <->
  (forall x, contains example_A x = contains example_B x).
Proof. exact (isEqualTo_same_members (T := Z) example_A example_B). Defined.

Lemma isEqualTo_equivalence_witness :
  isEqualTo example_A example_A = true
  /\ isEqualTo example_A example_B = isEqualTo example_B example_A.
Proof.
  pose proof (isEqualTo_equivalence (T := Z) example_A example_B example_A)
    as (Hrefl & Hsym & _).
  split; [exact Hrefl | exact Hsym].
Defined.

(** A, and the set C that stores 2, 1, 3. *)
Lemma isEqualTo_order_and_name_witness :
  Permutation (elements example_A) [2; 1; 3]%Z
  /\ isEqualTo example_A {| elements := [2; 1; 3]%Z; name := "C" |} = true.
Proof.
  assert (Hp : Permutation (elements example_A) [2; 1; 3]%Z)
    by exact (perm_swap 2%Z 1%Z [3%Z]).
  split; [exact Hp|].
  exact (isEqualTo_order_and_name (T := Z) example_A
           {| elements := [2; 1; 3]%Z; name := "C" |} Hp).
Defined.

Lemma intersectionWith_contract_witness :
  no_two_equal (elements example_A)
  /\ elements (intersectionWith example_A example_B) = [2; 3]%Z.
Proof.
  split; [exact example_A_no_two_equal|].
  pose proof (intersectionWith_contract (T := Z) example_A example_B
                example_A_no_two_equal) as (Horder & _).
  rewrite Horder. reflexivity.
Defined.

Lemma differenceWith_contract_witness :
  no_two_equal (elements example_A)
  /\ elements (differenceWith example_A example_B) = [1]%Z.
Proof.
  split; [exact example_A_no_two_equal|].
  pose proof (differenceWith_contract (T := Z) example_A example_B
                example_A_no_two_equal) as (Horder & _).
  rewrite Horder. reflexivity.
Defined.

Lemma symmetricDifferenceWith_contract_witness :
  no_two_equal (elements example_A)
  /\ no_two_equal (elements example_B)
  /\ elements (symmetricDifferenceWith example_A example_B) = [1; 4]%Z.
Proof.
  split; [exact example_A_no_two_equal|].
  split; [exact example_B_no_two_equal|].
  pose proof (symmetricDifferenceWith_contract (T := Z) example_A example_B
                example_A_no_two_equal example_B_no_two_equal) as (Horder & _).
  rewrite Horder. reflexivity.
Defined.

Lemma union_intersection_commutative_witness :
  isEqualTo (unionWith example_A example_B) (unionWith example_B example_A) = true
  /\ isEqualTo (intersectionWith example_A example_B)
               (intersectionWith example_B example_A) = true.
Proof. exact (union_intersection_commutative (T := Z) example_A example_B). Defined.

Lemma union_intersection_associative_witness :
  isEqualTo (unionWith (unionWith example_A example_B) example_A)
            (unionWith example_A (unionWith example_B example_A)) = true.
Proof.
  exact (proj1 (union_intersection_associative (T := Z)
                  example_A example_B example_A)).
Defined.

Lemma self_operations_witness :
  isEqualTo (unionWith example_A example_A) example_A = true
  /\ isEqualTo (intersectionWith example_A example_A) example_A = true
  /\ elements (differenceWith example_A example_A) = []
  /\ elements (symmetricDifferenceWith example_A example_A) = [].
Proof. exact (self_operations (T := Z) example_A). Defined.

Lemma operation_inclusions_witness :
  isSubsetOf example_A (unionWith example_A example_B) = true.
Proof. exact (proj1 (operation_inclusions (T := Z) example_A example_B)). Defined.

Lemma intersection_difference_partition_witness :
  no_two_equal (elements example_A)
  /\ List.length (elements (intersectionWith example_A example_B))
     + List.length (elements (differenceWith example_A example_B))
     = List.length (elements example_A).
Proof.
  split; [exact example_A_no_two_equal|].
  exact (proj1 (intersection_difference_partition (T := Z) example_A example_B
                  example_A_no_two_equal)).
Defined.

Lemma stored_length_inclusion_exclusion_witness :
  no_two_equal (elements example_A)
  /\ no_two_equal (elements example_B)
  /\ List.length (elements (unionWith example_A example_B))
     + List.length (elements (intersectionWith example_A example_B))
     = List.length (elements example_A) + List.length (elements example_B).
Proof.
  split; [exact example_A_no_two_equal|].
  split; [exact example_B_no_two_equal|].
  exact (stored_length_inclusion_exclusion (T := Z) example_A example_B
           example_A_no_two_equal example_B_no_two_equal).
Defined.

Lemma operations_with_empty_set_witness :
  no_two_equal (elements example_A)
  /\ elements (DataSet_new (T := Z) "E") = []
  /\ elements (unionWith example_A (DataSet_new "E")) = elements example_A
  /\ elements (unionWith (DataSet_new "E") example_A) = elements example_A.
Proof.
  split; [exact example_A_no_two_equal|].
  split; [reflexivity|].
  pose proof (operations_with_empty_set (T := Z) example_A (DataSet_new "E")
                example_A_no_two_equal eq_refl) as (Hleft & Hright & _).
  split; [exact Hleft | exact Hright].
Defined.

Lemma lookup_by_name_witness :
  indices_fit_int example_collection
  /\ (hasSet example_collection "B" = true <-> registered example_collection "B").
Proof.
  split; [exact example_collection_fits|].
  exact (proj1 (lookup_by_name example_collection "B" example_collection_fits)).
Defined.

Lemma getSet_unique_name_witness :
  indices_fit_int example_collection
  /\ NoDup (getSetNames example_collection)
  /\ In example_B (sets example_collection)
  /\ getSet "B" example_collection = (Return example_B, example_collection).
Proof.
  assert (Hin : In example_B (sets example_collection))
    by (right; left; reflexivity).
  split; [exact example_collection_fits|].
  split; [exact example_collection_names_unique|].
  split; [exact Hin|].
  exact (getSet_unique_name example_collection example_B
           example_collection_fits example_collection_names_unique Hin).
Defined.

Lemma addSet_registration_order_witness :
  indices_fit_int example_collection
  /\ getSetNames (snd (addSet (DataSet_new "C") example_collection))
     = ["A"; "B"; "C"]%string
  /\ getSetNames (snd (addSet (DataSet_new "A") example_collection))
     = ["A"; "B"]%string.
Proof.
  split; [exact example_collection_fits|].
  pose proof (addSet_registration_order example_collection (DataSet_new "C")
                example_collection_fits) as (_ & HC & _).
  pose proof (addSet_registration_order example_collection (DataSet_new "A")
                example_collection_fits) as (_ & HA & _).
  split; [rewrite HC | rewrite HA]; reflexivity.
Defined.

Lemma names_stay_unique_witness :
  indices_fit_int example_collection
  /\ NoDup (getSetNames example_collection)
  /\ NoDup (getSetNames (snd (addSet (DataSet_new "C") example_collection)))
  /\ NoDup (getSetNames (snd (insertInto "A" 7%Z example_collection))).
Proof.
  split; [exact example_collection_fits|].
  split; [exact example_collection_names_unique|].
  exact (names_stay_unique example_collection (DataSet_new "C") "A" 7%Z
           example_collection_fits example_collection_names_unique).
Defined.

Lemma getSet_after_addSet_witness :
  (Z.of_nat (List.length (sets example_collection)) < 2 ^ 31)%Z
  /\ getSet "A" (snd (addSet (DataSet_new "A") example_collection))
     = (Return (DataSet_new "A"), snd (addSet (DataSet_new "A") example_collection)).
Proof.
  assert (Hroom : (Z.of_nat (List.length (sets example_collection)) < 2 ^ 31)%Z)
    by reflexivity.
  split; [exact Hroom|].
  exact (proj1 (getSet_after_addSet example_collection (DataSet_new "A") Hroom)).
Defined.

Lemma insertInto_contract_witness :
  indices_fit_int example_collection
  /\ registered example_collection "A"
  /\ exists s,
       getSet "A" example_collection = (Return s, example_collection)
       /\ fst (insertInto "A" 7%Z example_collection) = Return tt
       /\ getSet "A" (snd (insertInto "A" 7%Z example_collection))
          = (Return (insert s 7%Z), snd (insertInto "A" 7%Z example_collection)).
Proof.
  split; [exact example_collection_fits|].
  split; [exact example_collection_registers_A|].
  destruct (proj2 (insertInto_contract example_collection "A" 7%Z
                     example_collection_fits) example_collection_registers_A)
    as (s & Hget & Hret & Hafter & _).
  exists s. split; [exact Hget|]. split; [exact Hret | exact Hafter].
Defined.

Lemma operate_result_witness :
  indices_fit_int example_collection
  /\ registered example_collection "A" /\ registered example_collection "B"
  /\ exists sa sb,
       getSet "A" example_collection = (Return sa, example_collection)
       /\ getSet "B" example_collection = (Return sb, example_collection)
       /\ operate "A" "union" "B" example_collection
          = (Return (setName (unionWith sa sb) "(A union B)"), example_collection).
Proof.
  split; [exact example_collection_fits|].
  split; [exact example_collection_registers_A|].
  split; [exact example_collection_registers_B|].
  destruct (operate_result example_collection "A" "B" example_collection_fits
              example_collection_registers_A example_collection_registers_B)
    as (sa & sb & Ha & Hb & Hunion & _).
  exists sa, sb. split; [exact Ha|]. split; [exact Hb | exact Hunion].
Defined.

Lemma printSet_registered_witness :
  indices_fit_int example_collection
  /\ registered example_collection "A"
  /\ exists s,
       getSet "A" example_collection = (Return s, example_collection)
       /\ printSet "A" example_collection
          = (Return tt,
             {| sets := sets example_collection;
                cout := ((cout example_collection ++ print s) ++ endl)%string;
                cerr := cerr example_collection |}).
Proof.
  split; [exact example_collection_fits|].
  split; [exact example_collection_registers_A|].
  exact (printSet_registered example_collection "A" example_collection_fits
           example_collection_registers_A).
Defined.

Lemma collection_sets_duplicate_free_witness :
  indices_fit_int example_collection
  /\ (forall x, In x (sets example_collection) -> no_two_equal (elements x))
  /\ no_two_equal (elements example_B)
  /\ (forall x, In x (sets (snd (insertInto "A" 7%Z example_collection))) ->
                no_two_equal (elements x)).
Proof.
  split; [exact example_collection_fits|].
  split; [exact example_collection_sets_duplicate_free|].
  split; [exact example_B_no_two_equal|].
  exact (proj2 (collection_sets_duplicate_free (T := Z) example_collection
                  example_B "A" 7%Z example_collection_fits
                  example_collection_sets_duplicate_free example_B_no_two_equal)).
Defined.

Lemma trim_contract_witness :
  (Z.of_nat (String.length "  union A B ") < npos)%Z
  /\ exists lead r trail,
       trim "  union A B " = Some r
       /\ "  union A B "%string = (lead ++ r ++ trail)%string
       /\ all_in lead blanks = true /\ all_in trail blanks = true.
Proof.
  assert (Hlen : (Z.of_nat (String.length "  union A B ") < npos)%Z) by reflexivity.
  split; [exact Hlen|].
  destruct (trim_contract "  union A B " Hlen)
    as (lead & r & trail & Htrim & Hsplit & Hlead & Htrail & _).
  exists lead, r, trail. repeat split; assumption.
Defined.

Lemma trim_idempotent_witness :
  (Z.of_nat (String.length "  union A B ") < npos)%Z
  /\ trim "  union A B " = Some "union A B"%string
  /\ trim "union A B" = Some "union A B"%string.
Proof.
  assert (Hlen : (Z.of_nat (String.length "  union A B ") < npos)%Z) by reflexivity.
  split; [exact Hlen|]. split; [reflexivity|].
  exact (trim_idempotent "  union A B " "union A B" Hlen eq_refl).
Defined.

Lemma run_query_completes_witness :
  indices_fit_int example_collection
  /\ exists w',
       run_query "union A C" example_collection = (Return tt, w')
       /\ sets w' = sets example_collection.
Proof.
  split; [exact example_collection_fits|].
  exact (run_query_completes "union A C" example_collection example_collection_fits).
Defined.


Lemma binary_query_contract_witness :
  indices_fit_int example_collection
  /\ binary_keyword "union" = true
  /\ is_word "A" = true /\ is_word "C" = true
  /\ (registered example_collection "A" -> ~ registered example_collection "C" ->
      run_query "union A C" example_collection
      = (Return tt,
         {| sets := sets example_collection;
            cout := cout example_collection;
            cerr := (cerr example_collection ++ "Error: "
                     ++ what (NotFound "C") ++ endl)%string |})).
Proof.
  split; [exact example_collection_fits|].
  split; [reflexivity|]. split; [reflexivity|]. split; [reflexivity|].
  exact (proj1 (proj2 (binary_query_contract "union" "A" "C" example_collection
                         example_collection_fits eq_refl eq_refl eq_refl))).
Defined.
